(** * Screwie: the Telegram message printer ([screwie.py])

    A shallow embedding of the two update handlers of [screwie.py]
    ([handle_start] and [handle_message]) and of the Python string
    operations they rely on, followed by the properties of the access
    gate, the greedy word-wrap loop, the canvas-height computation and
    the dispatch of the rendered image to the external printer command. *)

From Stdlib Require Import List ZArith NArith QArith Bool Lia String Ascii.
Import ListNotations.

Local Open Scope Z_scope.

(** ** Python strings

    A Python [str] is a sequence of Unicode code points.  A code point
    is a natural number; a string is a list of them. *)

Module PyStr.

Definition char := N.
Definition str := list char.

(** Code points of a Rocq string literal (one per byte), used to write
    readable inputs. *)
Definition of_string (s : string) : str :=
  map N_of_ascii (list_ascii_of_string s).

Definition SPACE : char := 32%N.
Definition LF : char := 10%N.
Definition CR : char := 13%N.

(** [str.isspace] for one code point (CPython's [_PyUnicode_IsWhitespace]):
    the characters on which [str.split()] splits and which [str.strip()]
    removes. *)
Definition isspace (c : char) : bool :=
  ((9 <=? c) && (c <=? 13) ||
   (28 <=? c) && (c <=? 32) ||
   (c =? 133) || (c =? 160) || (c =? 5760) ||
   (8192 <=? c) && (c <=? 8202) ||
   (c =? 8232) || (c =? 8233) || (c =? 8239) || (c =? 8287) ||
   (c =? 12288))%N.

(** Line boundaries of [str.splitlines] (CPython's
    [_PyUnicode_IsLinebreak]). *)
Definition islinebreak (c : char) : bool :=
  ((10 <=? c) && (c <=? 13) ||
   (28 <=? c) && (c <=? 30) ||
   (c =? 133) || (c =? 8232) || (c =? 8233))%N.

(** [bool(s)] for a string: the empty string is falsy. *)
Definition truthy (s : str) : bool :=
  match s with [] => false | _ :: _ => true end.

(** [s.splitlines()]: [cur] holds the characters read since the last
    line boundary.  A boundary closes the current line (CR LF counts as
    one boundary); at the end of the text a pending non-empty line is
    closed, so a final boundary adds no empty line. *)
Fixpoint splitlines_from (cur s : str) : list str :=
  match s with
  | [] => match cur with [] => [] | _ :: _ => [cur] end
  | c :: rest =>
      if islinebreak c then
        match rest with
        | d :: rest' =>
            if (c =? CR)%N && (d =? LF)%N
            then cur :: splitlines_from [] rest'
            else cur :: splitlines_from [] rest
        | [] => cur :: splitlines_from [] rest
        end
      else splitlines_from (cur ++ [c]) rest
  end.

Definition splitlines (s : str) : list str := splitlines_from [] s.

(** [s.split()]: maximal runs of non-whitespace characters; [cur] is
    the run being read. *)
Fixpoint split_from (cur s : str) : list str :=
  match s with
  | [] => match cur with [] => [] | _ :: _ => [cur] end
  | c :: rest =>
      if isspace c then
        match cur with
        | [] => split_from [] rest
        | _ :: _ => cur :: split_from [] rest
        end
      else split_from (cur ++ [c]) rest
  end.

Definition split (s : str) : list str := split_from [] s.

(** [s.lstrip()], [s.rstrip()], [s.strip()]. *)
Fixpoint lstrip (s : str) : str :=
  match s with
  | [] => []
  | c :: rest => if isspace c then lstrip rest else s
  end.

Definition rstrip (s : str) : str := rev (lstrip (rev s)).

Definition strip (s : str) : str := rstrip (lstrip s).

End PyStr.

Import PyStr.

(** ** The word-wrap loop (lines 114-126 of [screwie.py]) *)

Module Wrap.

(** What the loop uses of Pillow: [draw.textlength(text, font)] and,
    later, [font.getbbox].  [textlength] returns a float that is an
    exact multiple of 1/64 pixel, so a rational represents it and the
    comparison with the integer budget exactly. *)
Record Font := {
  textlength : str -> Q;
  getbbox : str -> (Z * Z * Z * Z)
}.

Section Loop.

Variable font : Font.
Variables width padding : Z.

(** [length <= width - 2 * padding]. *)
Definition fits (test_line : str) : bool :=
  Qle_bool (textlength font test_line) (inject_Z (width - 2 * padding)).

(** The body of [for word in words]; the state is the pair of the
    list [lines] and the variable [current_line]. *)
Definition wrap_step (st : list str * str) (word : str) : list str * str :=
  let '(lines, current_line) := st in
  let test_line := strip (current_line ++ [SPACE] ++ word) in
  if fits test_line
  then (lines, test_line)
  else (lines ++ [current_line], word).

(** The inner loop run from an arbitrary state, followed by the
    [lines.append(current_line)] that closes the source line. *)
Definition wrap_words_from (st : list str * str) (words : list str)
  : list str :=
  let '(lines, current_line) := fold_left wrap_step words st in
  lines ++ [current_line].

(** The body of [for line in text.splitlines()]. *)
Definition wrap_line (lines : list str) (line : str) : list str :=
  let words := split line in
  wrap_words_from (lines, []) words.

(** [lines = []] followed by the outer loop. *)
Definition wrap_text (text : str) : list str :=
  fold_left wrap_line (splitlines text) [].

(** A recursive view of the inner loop: the lines it appends, the
    closing one included. *)
Fixpoint wrap_loop (current_line : str) (words : list str) : list str :=
  match words with
  | [] => [current_line]
  | word :: rest =>
      let test_line := strip (current_line ++ [SPACE] ++ word) in
      if fits test_line
      then wrap_loop test_line rest
      else current_line :: wrap_loop word rest
  end.

End Loop.

End Wrap.

Import Wrap.

(** A measurer giving every character the same advance, as in the
    scenarios of the specification (10 pixels per character). *)
Definition fixed_pitch (px : Z) : Font :=
  {| textlength := fun s => inject_Z (px * Z.of_nat (List.length s));
     getbbox := fun _ => (0, 5, px, 23) |}.

(** ** Configuration (lines 45-65)

    The options the handlers read from the [screwie] section.  [None]
    is an option missing from the file, for which the code supplies a
    fallback ([timezone], [delete_temp_files]) or raises [KeyError]
    ([printer_script]). *)

Module Bot.

Inductive exn :=
| AttributeError
| TypeError
| KeyError
| ValueError
| OSError
| FileNotFoundError
| PermissionError
| KeyboardInterrupt.

(** [isinstance(e, Exception)]: what [except Exception] catches. *)
Definition is_Exception (e : exn) : bool :=
  match e with
  | KeyboardInterrupt => false
  | _ => true
  end.

Record Config := {
  allowed_users : list Z;
  timezone : option str;
  delete_temp_files : option bool;
  printer_script : option str
}.

(** The list comprehension of lines 59-64:
    [[int(id) for id in get('allowed_users', fallback='').split()]].
    The builtin [int] is a parameter; it raises [ValueError] ([None])
    on a token that is not an integer literal. *)
Fixpoint int_each (int : str -> option Z) (tokens : list str)
  : option (list Z) :=
  match tokens with
  | [] => Some []
  | id :: rest =>
      match int id with
      | None => None
      | Some n =>
          match int_each int rest with
          | None => None
          | Some ns => Some (n :: ns)
          end
      end
  end.

Definition load_allowed_users (int : str -> option Z)
  (option_value : option str) : option (list Z) :=
  let value := match option_value with Some v => v | None => [] end in
  int_each int (split value).

(** [x in xs] for a list of integers. *)
Fixpoint contains (xs : list Z) (x : Z) : bool :=
  match xs with
  | [] => false
  | y :: rest => if (x =? y)%Z then true else contains rest x
  end.

(** ** Updates delivered by the transport *)

Record User := {
  id : Z;
  username : option str
}.

Record Message := {
  date : Z;
  text : option str
}.

Record Update := {
  effective_user : option User;
  message : option Message
}.

(** ** What a handler does to the outside world *)

Inductive level := INFO | WARNING | ERROR.

Inductive log_record :=
| UserStart
| UserMessage
| Denied
| ProcessingMessage
| ImageSaved (name : str)
| CallingExternalProgram (cmd : list str)
| FailedToCallExternalProgram (e : exn).

Inductive event :=
| Log (lvl : level) (record : log_record)
| ReplyText (reply : str)
| ImageNew (size : Z * Z) (white : bool)
| DrawText (xy : Z * Z) (line : str)
| TempFileOpen (name : str) (delete : bool)
| ImageSave (name : str)
| Popen (cmd : list str)
| TempFileClose (name : str)
| TempFileUnlink (name : str).

(** The parts of the environment a run depends on: the loaded font,
    the rendering of a timestamp in a time zone, the name the temporary
    file receives, and whether [img.save] and [subprocess.Popen]
    raise. *)
Record World := {
  font : Font;
  isoformat : str -> Z -> str;
  tmp_name : str;
  save_raises : option exn;
  popen_raises : list str -> option exn
}.

(** ** A trace-and-exception monad *)

Inductive outcome (A : Type) :=
| Returned (a : A)
| Raised (e : exn).

Arguments Returned {A} a.
Arguments Raised {A} e.

Definition M (A : Type) : Type := list event * outcome A.

Definition ret {A} (a : A) : M A := ([], Returned a).

Definition bind {A B} (m : M A) (k : A -> M B) : M B :=
  match m with
  | (tr, Returned a) => let '(tr', r) := k a in (tr ++ tr', r)
  | (tr, Raised e) => (tr, Raised e)
  end.

Definition emit (e : event) : M unit := ([e], Returned tt).

Definition raise {A} (e : exn) : M A := ([], Raised e).

Notation "x <- m ;; k" := (bind m (fun x => k))
  (at level 61, m at next level, right associativity).
Notation "m ;; k" := (bind m (fun _ => k))
  (at level 61, right associativity).

(** Attribute access on a value that may be [None]. *)
Definition attr_of {A} (o : option A) : M A :=
  match o with
  | Some a => ret a
  | None => raise AttributeError
  end.

(** [try: body  except Exception as e: handler(e)]. *)
Definition try_except_Exception (body : M unit) (handler : exn -> M unit)
  : M unit :=
  match body with
  | (tr, Raised e) =>
      if is_Exception e
      then let '(tr', r) := handler e in (tr ++ tr', r)
      else (tr, Raised e)
  | (tr, Returned a) => (tr, Returned a)
  end.

(** [with tempfile.NamedTemporaryFile(suffix='.png', delete=...) as tmp]:
    on every exit from the body the file is closed, and removed when
    [delete] is set; an exception of the body is then re-raised. *)
Definition with_NamedTemporaryFile (name : str) (delete : bool)
  (body : str -> M unit) : M unit :=
  let '(tr, r) := (emit (TempFileOpen name delete) ;; body name) in
  (tr ++ TempFileClose name :: (if delete then [TempFileUnlink name] else []),
   r).

Definition reply_text (update : Update) (reply : str) : M unit :=
  msg <- attr_of (message update) ;;
  emit (ReplyText reply).

(** ** [handle_start] (lines 67-76) *)

Definition handle_start (cfg : Config) (update : Update) : M unit :=
  emit (Log INFO UserStart) ;;
  user <- attr_of (effective_user update) ;;
  if contains (allowed_users cfg) (id user)
  then reply_text update (of_string "Welcome!")
  else
    emit (Log WARNING Denied) ;;
    reply_text update (of_string "Sorry, this bot is private.").

(** ** [handle_message] (lines 78-170) *)

(** [for line in lines: draw.text(xy=(padding, y), ...); y += step]. *)
Fixpoint draw_lines (padding step y : Z) (lines : list str) : M unit :=
  match lines with
  | [] => ret tt
  | line :: rest =>
      emit (DrawText (padding, y) line) ;;
      draw_lines padding step (y + step) rest
  end.

(** [font.getbbox('A')[3] - font.getbbox('A')[1]]. *)
Definition line_height_of (f : Font) : Z :=
  let '(_, top, _, bottom) := getbbox f (of_string "A") in
  bottom - top.

(** The text block of lines 103-112; concatenating [None] raises
    [TypeError]. *)
Definition format_text (cfg : Config) (w : World) (user : User)
  (date : Z) (body : str) : M str :=
  let tz := match timezone cfg with
            | Some z => z
            | None => of_string "UTC"
            end in
  match username user with
  | None => raise TypeError
  | Some name =>
      ret (isoformat w tz date ++ [LF] ++ name ++ [LF; LF] ++ body)
  end.

(** Lines 160-168. *)
Definition dispatch (cfg : Config) (w : World) (name : str) : M unit :=
  try_except_Exception
    (script <- match printer_script cfg with
               | Some s => ret s
               | None => raise KeyError
               end ;;
     let cmd := split script ++ [name] in
     emit (Log INFO (CallingExternalProgram cmd)) ;;
     match popen_raises w cmd with
     | Some e => raise e
     | None => emit (Popen cmd)
     end)
    (fun e => emit (Log ERROR (FailedToCallExternalProgram e))).

(** Line 157. *)
Definition save (w : World) (name : str) : M unit :=
  match save_raises w with
  | Some e => raise e
  | None => emit (ImageSave name)
  end.

(** Lines 150-168: the temporary file, the save and the dispatch. *)
Definition print_image (cfg : Config) (w : World) : M unit :=
  with_NamedTemporaryFile (tmp_name w)
    (match delete_temp_files cfg with
     | Some b => b
     | None => true
     end)
    (fun name =>
       save w name ;;
       emit (Log INFO (ImageSaved name)) ;;
       dispatch cfg w name).

Definition handle_message (cfg : Config) (w : World) (update : Update)
  : M unit :=
  emit (Log INFO UserMessage) ;;
  user <- attr_of (effective_user update) ;;
  if contains (allowed_users cfg) (id user) then
    msg <- attr_of (message update) ;;
    match text msg with
    | Some body =>
        if truthy body then
          emit (Log INFO ProcessingMessage) ;;
          let width := 384 in
          let padding := 8 in
          let spacing := 8 in
          emit (ImageNew (width, 1) false) ;;
          text <- format_text cfg w user (date msg) body ;;
          let lines := wrap_text (font w) width padding text in
          let line_height := line_height_of (font w) in
          let height :=
            (line_height + spacing) * Z.of_nat (List.length lines)
            + 2 * padding in
          emit (ImageNew (width, height) true) ;;
          draw_lines padding (line_height + spacing) padding lines ;;
          print_image cfg w
        else ret tt
    | None => ret tt
    end
  else emit (Log WARNING Denied).

(** ** Observations on a trace *)

(** Sizes of the canvases allocated with a white background (the image
    that is printed; the measuring image has no background colour). *)
Fixpoint canvases (tr : list event) : list (Z * Z) :=
  match tr with
  | [] => []
  | ImageNew size true :: rest => size :: canvases rest
  | _ :: rest => canvases rest
  end.

(** The lines drawn, in order. *)
Fixpoint drawn (tr : list event) : list str :=
  match tr with
  | [] => []
  | DrawText _ line :: rest => line :: drawn rest
  | _ :: rest => drawn rest
  end.

(** Events of the rendering and dispatch stages. *)
Definition is_pipeline (e : event) : bool :=
  match e with
  | ImageNew _ _ | DrawText _ _ | TempFileOpen _ _ | ImageSave _
  | Popen _ | TempFileClose _ | TempFileUnlink _ => true
  | Log _ _ | ReplyText _ => false
  end.

Definition is_reply (e : event) : bool :=
  match e with
  | ReplyText _ => true
  | _ => false
  end.

Definition is_error_log (e : event) : bool :=
  match e with
  | Log ERROR _ => true
  | _ => false
  end.

Definition is_popen (e : event) : bool :=
  match e with
  | Popen _ => true
  | _ => false
  end.

(** The events of [draw_lines]. *)
Fixpoint draw_events (padding step y : Z) (lines : list str) : list event :=
  match lines with
  | [] => []
  | line :: rest =>
      DrawText (padding, y) line :: draw_events padding step (y + step) rest
  end.

(** The update comes from an allowed user with a name and carries a
    non-empty text: the handler reaches the rendering stage. *)
Definition reaches_rendering (cfg : Config) (update : Update)
  (user : User) (msg : Message) (name body : str) : Prop :=
  effective_user update = Some user /\
  contains (allowed_users cfg) (id user) = true /\
  message update = Some msg /\
  text msg = Some body /\
  body <> [] /\
  username user = Some name.

(** The text block and the wrapped lines of a message. *)
Definition text_of (cfg : Config) (w : World) (msg : Message)
  (name body : str) : str :=
  isoformat w
    (match timezone cfg with Some z => z | None => of_string "UTC" end)
    (date msg)
  ++ [LF] ++ name ++ [LF; LF] ++ body.

Definition lines_of (cfg : Config) (w : World) (msg : Message)
  (name body : str) : list str :=
  wrap_text (font w) 384 8 (text_of cfg w msg name body).

(** The closing events of the temporary file. *)
Definition release (cfg : Config) (w : World) : list event :=
  TempFileClose (tmp_name w) ::
  (if match delete_temp_files cfg with Some b => b | None => true end
   then [TempFileUnlink (tmp_name w)]
   else []).

End Bot.

Import Bot.

(** ** Sample inputs *)

Definition sample_config : Config :=
  {| allowed_users := [123; 456];
     timezone := None;
     delete_temp_files := None;
     printer_script := Some (of_string "lp -d thermal") |}.

Definition sample_world : World :=
  {| font := fixed_pitch 10;
     isoformat := fun _ _ => of_string "2024-05-01T10:00:00+00:00";
     tmp_name := of_string "/tmp/tmpab12cd.png";
     save_raises := None;
     popen_raises := fun _ => None |}.

Definition failing_save_world : World :=
  {| font := fixed_pitch 10;
     isoformat := fun _ _ => of_string "2024-05-01T10:00:00+00:00";
     tmp_name := of_string "/tmp/tmpab12cd.png";
     save_raises := Some OSError;
     popen_raises := fun _ => None |}.

Definition failing_launch_world : World :=
  {| font := fixed_pitch 10;
     isoformat := fun _ _ => of_string "2024-05-01T10:00:00+00:00";
     tmp_name := of_string "/tmp/tmpab12cd.png";
     save_raises := None;
     popen_raises := fun _ => Some FileNotFoundError |}.

Definition sample_user (sender : Z) : User :=
  {| id := sender; username := Some (of_string "alice") |}.

Definition sample_message (body : option str) : Message :=
  {| date := 1714557600; text := body |}.

Definition sample_update (sender : Z) (body : option str) : Update :=
  {| effective_user := Some (sample_user sender);
     message := Some (sample_message body) |}.

Definition long_word : str :=
  of_string "01234567890123456789012345678901234567890123456789".

Definition long_line : str :=
  of_string "ab " ++ long_word ++ of_string " cd ef".

(** ** Predicates used in the statements *)

(** A word as [str.split()] returns them: not empty, no whitespace. *)
Definition is_word (w : str) : Prop :=
  w <> [] /\ Forall (fun c => isspace c = false) w.

Definition nonspace (c : char) : Prop := isspace c = false.

(** The first character, if any, is not whitespace. *)
Definition head_ok (l : str) : Prop :=
  forall c, hd_error l = Some c -> isspace c = false.

(** No whitespace at either end. *)
Definition no_edge_space (l : str) : Prop :=
  (forall c, hd_error l = Some c -> isspace c = false) /\
  (forall c, hd_error (rev l) = Some c -> isspace c = false).

(** The pixel budget [width - 2 * padding] as compared with the
    measured length. *)
Definition budget (width padding : Z) : Q := inject_Z (width - 2 * padding).

(** Words joined by single spaces. *)
Fixpoint unwords (ws : list str) : str :=
  match ws with
  | [] => []
  | w :: rest =>
      match rest with
      | [] => w
      | _ :: _ => w ++ [SPACE] ++ unwords rest
      end
  end.

(** ** Further observations on a trace *)

(** The replies sent, in order. *)
Fixpoint replies (tr : list event) : list str :=
  match tr with
  | [] => []
  | ReplyText reply :: rest => reply :: replies rest
  | _ :: rest => replies rest
  end.

(** The argument vectors of the processes started, in order. *)
Fixpoint launched (tr : list event) : list (list str) :=
  match tr with
  | [] => []
  | Popen cmd :: rest => cmd :: launched rest
  | _ :: rest => launched rest
  end.

(** The positions at which lines are drawn, in order. *)
Fixpoint draw_positions (tr : list event) : list (Z * Z) :=
  match tr with
  | [] => []
  | DrawText xy _ :: rest => xy :: draw_positions rest
  | _ :: rest => draw_positions rest
  end.

(** Events on the temporary file itself. *)
Definition is_tempfile (e : event) : bool :=
  match e with
  | TempFileOpen _ _ | TempFileClose _ | TempFileUnlink _ => true
  | _ => false
  end.

Definition is_unlink (e : event) : bool :=
  match e with
  | TempFileUnlink _ => true
  | _ => false
  end.

(** Saving the image or starting the external command. *)
Definition is_save_or_popen (e : event) : bool :=
  match e with
  | ImageSave _ | Popen _ => true
  | _ => false
  end.

(** [delete=config.getboolean('delete_temp_files', fallback=True)]. *)
Definition delete_flag (cfg : Config) : bool :=
  match delete_temp_files cfg with
  | Some b => b
  | None => true
  end.

(** The events of a run of [handle_message] before the temporary-file
    block, for a message that reaches rendering. *)
Definition rendering_events (cfg : Config) (w : World) (msg : Message)
  (name body : str) : list event :=
  [Log INFO UserMessage; Log INFO ProcessingMessage;
   ImageNew (384, 1) false;
   ImageNew
     (384,
      (line_height_of (font w) + 8)
      * Z.of_nat (List.length (lines_of cfg w msg name body)) + 2 * 8)
     true]
  ++ draw_events 8 (line_height_of (font w) + 8) 8
       (lines_of cfg w msg name body).

Definition no_linebreak (s : str) : Prop :=
  Forall (fun c => islinebreak c = false) s.


Definition no_script_config : Config :=
  {| allowed_users := [123; 456];
     timezone := None;
     delete_temp_files := Some false;
     printer_script := None |}.

Definition interrupted_launch_world : World :=
  {| font := fixed_pitch 10;
     isoformat := fun _ _ => of_string "2024-05-01T10:00:00+00:00";
     tmp_name := of_string "/tmp/tmpab12cd.png";
     save_raises := None;
     popen_raises := fun _ => Some KeyboardInterrupt |}.

(** An [int] for tokens of ASCII decimal digits, used as a sample. *)
Fixpoint decimal (acc : Z) (token : str) : option Z :=
  match token with
  | [] => Some acc
  | c :: rest =>
      if ((48 <=? c) && (c <=? 57))%N
      then decimal (10 * acc + Z.of_N (c - 48)) rest
      else None
  end.

Definition sample_int (token : str) : option Z :=
  match token with
  | [] => None
  | _ :: _ => decimal 0 token
  end.

(** * Properties *)

Example splitlines_ex :
  splitlines (of_string "ab" ++ [LF; LF] ++ of_string "c d" ++ [CR; LF])
  = [of_string "ab"; []; of_string "c d"].
Proof. reflexivity. Qed.

Example split_ex :
  split (of_string "  Hello   world ") = [of_string "Hello"; of_string "world"].
Proof. reflexivity. Qed.

Example wrap_scenario_1 :
  wrap_text (fixed_pitch 10) 384 8 (of_string "Hello world")
  = [of_string "Hello world"].
Proof. vm_compute. reflexivity. Qed.

Example wrap_scenario_2 :
  map (fun l => List.length (split l))
    (wrap_text (fixed_pitch 10) 384 8
       (List.concat (repeat (of_string "word ") 40)))
  = [7; 7; 7; 7; 7; 5]%nat.
Proof. vm_compute. reflexivity. Qed.

Example wrap_blank_lines :
  wrap_text (fixed_pitch 10) 384 8 (of_string "a" ++ [LF; LF] ++ of_string "b")
  = [of_string "a"; []; of_string "b"].
Proof. vm_compute. reflexivity. Qed.

Example wrap_scenario_6 :
  wrap_text (fixed_pitch 10) 384 8
    (of_string "ab 01234567890123456789012345678901234567890123456789 cd")
  = [of_string "ab";
     of_string "01234567890123456789012345678901234567890123456789";
     of_string "cd"].
Proof. vm_compute. reflexivity. Qed.

(** ** The loop as a function of the words *)

Section WrapFacts.

Variable font : Font.
Variables width padding : Z.

Lemma fold_wrap_step (words : list str) (lines : list str) (cur : str) :
  wrap_words_from font width padding (lines, cur) words
  = lines ++ wrap_loop font width padding cur words.
Proof.
  unfold wrap_words_from.
  revert lines cur.
  induction words as [|word rest IH]; intros lines cur; simpl.
  - reflexivity.
  - destruct (fits font width padding (strip (cur ++ SPACE :: word))).
    + apply IH.
    + rewrite IH, <- app_assoc. reflexivity.
Qed.

Lemma wrap_line_loop (lines : list str) (line : str) :
  wrap_line font width padding lines line
  = lines ++ wrap_loop font width padding [] (split line).
Proof. unfold wrap_line. apply fold_wrap_step. Qed.

Lemma fold_wrap_line (src : list str) (lines : list str) :
  fold_left (wrap_line font width padding) src lines
  = lines ++
    flat_map (fun line => wrap_loop font width padding [] (split line)) src.
Proof.
  revert lines.
  induction src as [|line rest IH]; intros lines; simpl.
  - now rewrite app_nil_r.
  - rewrite IH, wrap_line_loop, <- app_assoc. reflexivity.
Qed.

Lemma wrap_text_flat_map (text : str) :
  wrap_text font width padding text
  = flat_map (fun line => wrap_loop font width padding [] (split line))
      (splitlines text).
Proof. unfold wrap_text. now rewrite fold_wrap_line. Qed.

Lemma loop_not_nil (cur : str) (words : list str) :
  wrap_loop font width padding cur words <> [].
Proof.
  revert cur.
  induction words as [|word rest IH]; intros cur; simpl.
  - discriminate.
  - destruct (fits _ _ _ _); [apply IH | discriminate].
Qed.

End WrapFacts.

(** C7. Every source line makes the wrapper append at least one line,
    and a blank source line exactly one empty line: [wrap_line] extends
    [lines] by a non-empty block, which is [['']] when the source line
    is empty, and the wrapped text is the concatenation of these blocks
    over the source lines. *)
Theorem wrap_line_emits_at_least_one_line
  (font : Font) (width padding : Z) (lines : list str) (line : str) :
  (exists first rest,
      wrap_line font width padding lines line = lines ++ first :: rest) /\
  wrap_line font width padding lines [] = lines ++ [[]] /\
  (forall text,
      wrap_text font width padding text
      = flat_map (wrap_line font width padding []) (splitlines text)).
Proof.
  split; [|split].
  - rewrite wrap_line_loop.
    destruct (wrap_loop font width padding [] (split line))
      as [|first rest] eqn:E.
    + now apply loop_not_nil in E.
    + now exists first, rest.
  - reflexivity.
  - intros text. rewrite wrap_text_flat_map.
    apply flat_map_ext. intros l. now rewrite wrap_line_loop.
Qed.

(** ** Facts on [split], [strip] and [unwords] *)

Section StringFacts.

Lemma split_from_app (w : str) :
  Forall nonspace w ->
  forall cur s, split_from cur (w ++ s) = split_from (cur ++ w) s.
Proof.
  induction 1 as [|c w Hc _ IH]; intros cur s; simpl.
  - now rewrite app_nil_r.
  - unfold nonspace in Hc. rewrite Hc, IH, <- app_assoc. reflexivity.
Qed.

Lemma split_from_words (s : str) :
  forall cur, Forall nonspace cur -> Forall is_word (split_from cur s).
Proof.
  induction s as [|c rest IH]; intros cur Hcur; simpl.
  - destruct cur; constructor;
      [split; [discriminate | exact Hcur] | constructor].
  - destruct (isspace c) eqn:Hc.
    + destruct cur as [|d cur'].
      * apply IH. constructor.
      * constructor; [split; [discriminate | exact Hcur] |].
        apply IH. constructor.
    + apply IH. apply Forall_app. split; [exact Hcur|].
      constructor; [exact Hc | constructor].
Qed.

Lemma split_words (s : str) : Forall is_word (split s).
Proof. apply split_from_words. constructor. Qed.

Lemma split_word (w : str) : is_word w -> split w = [w].
Proof.
  intros [Hne Hw]. unfold split.
  rewrite <- (app_nil_r w) at 1.
  rewrite split_from_app by exact Hw. simpl.
  destruct w; [contradiction | reflexivity].
Qed.

Lemma split_unwords (g : list str) :
  Forall is_word g -> split (unwords g) = g.
Proof.
  induction 1 as [|w rest Hw Hrest IH].
  - reflexivity.
  - destruct rest as [|r rest'].
    + simpl. now apply split_word.
    + change (unwords (w :: r :: rest'))
        with (w ++ SPACE :: unwords (r :: rest')).
      unfold split. destruct Hw as [Hne Hw].
      rewrite split_from_app by exact Hw. simpl.
      destruct w as [|c w']; [contradiction|].
      simpl. f_equal. exact IH.
Qed.

Lemma word_head_ok (w : str) : is_word w -> head_ok w.
Proof.
  intros [_ Hw] c Hc. destruct w as [|d w']; [discriminate|].
  inversion Hc; subst. now inversion Hw.
Qed.

Lemma word_last_ok (w : str) : is_word w -> head_ok (rev w).
Proof.
  intros [_ Hw] c Hc. apply Forall_rev in Hw.
  destruct (rev w) as [|d w']; [discriminate|].
  inversion Hc; subst. now inversion Hw.
Qed.

Lemma head_ok_app (a b : str) : a <> [] -> head_ok a -> head_ok (a ++ b).
Proof.
  intros Hne Ha c Hc. destruct a as [|d a']; [contradiction|].
  apply Ha. exact Hc.
Qed.

Lemma lstrip_head_ok (s : str) : head_ok s -> lstrip s = s.
Proof.
  intros Hs. destruct s as [|c rest]; [reflexivity|].
  simpl. now rewrite (Hs c eq_refl).
Qed.

Lemma lstrip_app_word (x w : str) :
  is_word w -> lstrip (x ++ w) = lstrip x ++ w.
Proof.
  intros Hw. induction x as [|c x IH]; simpl.
  - apply lstrip_head_ok. now apply word_head_ok.
  - destruct (isspace c); [exact IH | reflexivity].
Qed.

Lemma rstrip_app_word (y w : str) : is_word w -> rstrip (y ++ w) = y ++ w.
Proof.
  intros Hw. unfold rstrip. rewrite rev_app_distr.
  rewrite lstrip_head_ok.
  - now rewrite <- rev_app_distr, rev_involutive.
  - apply head_ok_app; [|now apply word_last_ok].
    destruct Hw as [Hne _]. intros E. apply Hne.
    rewrite <- (rev_involutive w), E. reflexivity.
Qed.

Lemma strip_app_word (x w : str) :
  is_word w -> strip (x ++ w) = lstrip x ++ w.
Proof.
  intros Hw. unfold strip.
  rewrite lstrip_app_word by exact Hw. now apply rstrip_app_word.
Qed.

Lemma strip_sep_word (cur w : str) :
  is_word w -> strip (cur ++ SPACE :: w) = lstrip (cur ++ [SPACE]) ++ w.
Proof.
  intros Hw. rewrite <- strip_app_word by exact Hw.
  now rewrite <- app_assoc.
Qed.

(** The candidate line of the loop when the accumulator has no leading
    whitespace. *)
Lemma strip_candidate (cur w : str) :
  head_ok cur -> is_word w ->
  strip (cur ++ [SPACE] ++ w)
  = match cur with [] => w | _ :: _ => cur ++ [SPACE] ++ w end.
Proof.
  intros Hcur Hw. rewrite app_assoc, strip_app_word by exact Hw.
  destruct cur as [|c cur']; [reflexivity|].
  rewrite lstrip_head_ok; [now rewrite <- app_assoc|].
  apply head_ok_app; [discriminate | exact Hcur].
Qed.

Lemma unwords_nil_iff (g : list str) :
  Forall is_word g -> unwords g = [] -> g = [].
Proof.
  intros Hg E. destruct Hg as [|w rest [Hne _] _]; [reflexivity|].
  destruct rest; simpl in E; [contradiction|].
  destruct w; [contradiction | discriminate].
Qed.

Lemma unwords_snoc (g : list str) (w : str) :
  unwords (g ++ [w])
  = match g with [] => w | _ :: _ => unwords g ++ [SPACE] ++ w end.
Proof.
  induction g as [|v rest IH]; [reflexivity|].
  destruct rest as [|r rest'].
  - reflexivity.
  - change (unwords ((v :: r :: rest') ++ [w]))
      with (v ++ [SPACE] ++ unwords ((r :: rest') ++ [w])).
    rewrite IH.
    change (unwords (v :: r :: rest'))
      with (v ++ [SPACE] ++ unwords (r :: rest')).
    now rewrite <- !app_assoc.
Qed.

Lemma unwords_head_ok (g : list str) :
  Forall is_word g -> head_ok (unwords g).
Proof.
  intros Hg. destruct Hg as [|w rest Hw _].
  - intros c Hc. discriminate.
  - destruct rest; simpl; [now apply word_head_ok|].
    apply head_ok_app; [apply Hw | now apply word_head_ok].
Qed.

Lemma unwords_last_ok (g : list str) :
  Forall is_word g -> head_ok (rev (unwords g)).
Proof.
  intros Hg. induction g as [|w g IH] using rev_ind.
  - intros c Hc. discriminate.
  - apply Forall_app in Hg. destruct Hg as [Hg Hw].
    inversion Hw as [|? ? Hw' _]; subst.
    rewrite unwords_snoc.
    destruct g as [|v g']; [now apply word_last_ok|].
    rewrite app_assoc, rev_app_distr.
    apply head_ok_app; [|now apply word_last_ok].
    destruct Hw' as [Hne _]. intros E. apply Hne.
    rewrite <- (rev_involutive w), E. reflexivity.
Qed.

Lemma unwords_no_edge_space (g : list str) :
  Forall is_word g -> no_edge_space (unwords g).
Proof.
  intros Hg. split; [now apply unwords_head_ok | now apply unwords_last_ok].
Qed.

End StringFacts.

(** ** Properties of the word-wrap loop *)

Section WrapProps.

Variable font : Font.
Variables width padding : Z.

Lemma fits_true (s : str) :
  fits font width padding s = true <->
  (textlength font s <= budget width padding)%Q.
Proof. unfold fits, budget. apply Qle_bool_iff. Qed.

Lemma fits_false (s : str) :
  (budget width padding < textlength font s)%Q ->
  fits font width padding s = false.
Proof.
  intros H. destruct (fits font width padding s) eqn:E; [|reflexivity].
  apply fits_true in E. exfalso. exact (Qlt_not_le _ _ H E).
Qed.

(** Either the line fits, or it is one of the words and overflows. *)
Lemma fit_or_overflowing_word (all : list str) (l : str) :
  (textlength font l <= budget width padding)%Q \/ In l all ->
  (textlength font l <= budget width padding)%Q \/
  (In l all /\ (budget width padding < textlength font l)%Q).
Proof.
  intros [H|H]; [now left|].
  destruct (Qlt_le_dec (budget width padding) (textlength font l)).
  - right. now split.
  - now left.
Qed.

Lemma loop_lines_fit (all words : list str) :
  incl words all ->
  forall cur l,
    (textlength font cur <= budget width padding)%Q \/ In cur all ->
    In l (wrap_loop font width padding cur words) ->
    (textlength font l <= budget width padding)%Q \/
    (In l all /\ (budget width padding < textlength font l)%Q).
Proof.
  induction words as [|word rest IH]; intros Hincl cur l Hcur Hl; simpl in Hl.
  - destruct Hl as [<-|[]]. now apply fit_or_overflowing_word.
  - assert (Hword : In word all) by (apply Hincl; now left).
    assert (Hrest : incl rest all)
      by (intros x Hx; apply Hincl; now right).
    destruct (fits font width padding (strip (cur ++ SPACE :: word))) eqn:E.
    + eapply (IH Hrest); [|exact Hl]. left. now apply fits_true.
    + destruct Hl as [<-|Hl].
      * now apply fit_or_overflowing_word.
      * apply (IH Hrest word l); [now right | exact Hl].
Qed.

(** An overflowing word closes the accumulator and is closed in turn by
    the next word, provided no text containing it measures less than
    the word itself. *)
Lemma loop_overflowing_word (w : str) (post : list str) :
  is_word w ->
  Forall is_word post ->
  (budget width padding < textlength font w)%Q ->
  (forall a b, (textlength font w <= textlength font (a ++ w ++ b))%Q) ->
  forall pre cur,
    wrap_loop font width padding cur (pre ++ w :: post)
    = wrap_loop font width padding cur pre ++
      w :: match post with
           | [] => []
           | next :: rest => wrap_loop font width padding next rest
           end.
Proof.
  intros Hw Hpost Hover Hmono.
  assert (Hbig : forall a b,
             fits font width padding (a ++ w ++ b) = false).
  { intros a b. apply fits_false.
    eapply Qlt_le_trans; [exact Hover | apply Hmono]. }
  induction pre as [|p pre IH]; intros cur; simpl.
  - rewrite strip_sep_word by exact Hw.
    rewrite <- (app_nil_r w) at 1. rewrite Hbig. simpl. f_equal.
    destruct post as [|next rest]; [reflexivity|]. simpl.
    inversion Hpost as [|? ? Hnext _]; subst.
    rewrite strip_sep_word by exact Hnext.
    rewrite lstrip_head_ok.
    + rewrite <- app_assoc.
      change (w ++ [SPACE] ++ next) with ([] ++ w ++ ([SPACE] ++ next)).
      now rewrite Hbig.
    + apply head_ok_app; [apply Hw | now apply word_head_ok].
  - destruct (fits font width padding (strip (cur ++ SPACE :: p))).
    + apply IH.
    + simpl. f_equal. apply IH.
Qed.

(** The accumulator is always the words of the current group joined by
    single spaces, so splitting the emitted lines gives the words back. *)
Lemma loop_words (words : list str) :
  Forall is_word words ->
  forall g,
    Forall is_word g ->
    flat_map split (wrap_loop font width padding (unwords g) words)
    = g ++ words /\
    Forall no_edge_space (wrap_loop font width padding (unwords g) words).
Proof.
  induction 1 as [|word rest Hword Hrest IH]; intros g Hg; simpl.
  - rewrite !app_nil_r, split_unwords by exact Hg.
    split; [reflexivity|].
    constructor; [now apply unwords_no_edge_space | constructor].
  - assert (Hgw : Forall is_word (g ++ [word])).
    { apply Forall_app. split; [exact Hg | now constructor]. }
    assert (E : strip (unwords g ++ SPACE :: word) = unwords (g ++ [word])).
    { change (unwords g ++ SPACE :: word)
        with (unwords g ++ [SPACE] ++ word).
      rewrite strip_candidate;
        [|now apply unwords_head_ok | exact Hword].
      rewrite unwords_snoc.
      destruct g as [|v g']; [reflexivity|].
      destruct (unwords (v :: g')) eqn:U; [|reflexivity].
      apply unwords_nil_iff in U; [discriminate | exact Hg]. }
    rewrite E.
    destruct (fits font width padding (unwords (g ++ [word]))).
    + destruct (IH (g ++ [word]) Hgw) as [IH1 IH2].
      rewrite IH1, <- app_assoc. now split.
    + assert (Hone : Forall is_word [word]) by now constructor.
      destruct (IH [word] Hone) as [IH1 IH2]. simpl in IH1, IH2.
      simpl. rewrite IH1, split_unwords by exact Hg.
      split; [reflexivity|].
      constructor; [now apply unwords_no_edge_space | exact IH2].
Qed.

End WrapProps.

(** C2. Every line the wrap loop emits measures at most
    [width - 2 * padding], unless it is a single word of its source line
    whose own measured length exceeds that budget.  The empty string is
    assumed to measure within the budget (Pillow measures it as 0 and
    the code's budget is 368): the loop emits empty lines unmeasured. *)
Theorem wrapped_lines_fit_budget
  (font : Font) (width padding : Z) (text l : str) :
  (textlength font [] <= budget width padding)%Q ->
  In l (wrap_text font width padding text) ->
  (textlength font l <= budget width padding)%Q \/
  (exists line,
      In line (splitlines text) /\ In l (split line) /\
      (budget width padding < textlength font l)%Q).
Proof.
  intros Hempty Hl. rewrite wrap_text_flat_map in Hl.
  apply in_flat_map in Hl. destruct Hl as [line [Hline Hl]].
  destruct (loop_lines_fit font width padding (split line) (split line)
              (incl_refl _) [] l (or_introl Hempty) Hl) as [H|[H1 H2]].
  - now left.
  - right. now exists line.
Qed.

Lemma wrapped_lines_fit_budget_witness :
  (textlength (fixed_pitch 10) long_word <= budget 384 8)%Q \/
  (exists line,
      In line (splitlines long_line) /\ In long_word (split line) /\
      (budget 384 8 < textlength (fixed_pitch 10) long_word)%Q).
Proof.
  apply (wrapped_lines_fit_budget (fixed_pitch 10) 384 8 long_line long_word).
  - vm_compute. discriminate.
  - vm_compute. right. left. reflexivity.
Defined.

Lemma fixed_pitch_monotone (px : Z) (w a b : str) :
  0 <= px ->
  (textlength (fixed_pitch px) w
   <= textlength (fixed_pitch px) (a ++ w ++ b))%Q.
Proof.
  intros Hpx. simpl. rewrite <- Zle_Qle, !length_app, !Nat2Z.inj_add. nia.
Qed.

(** C6. A word whose measured length alone exceeds the budget makes the
    loop close the accumulator as a finished line (the empty one too,
    when the word comes first) and is then emitted whole as the next
    line, the loop restarting from the word after it.  The measurer is
    assumed monotone around the word: no text containing the word
    measures less than the word alone. *)
Theorem overflowing_word_on_its_own_line
  (font : Font) (width padding : Z) (lines : list str) (line : str)
  (pre : list str) (w : str) (post : list str) :
  split line = pre ++ w :: post ->
  (budget width padding < textlength font w)%Q ->
  (forall a b, (textlength font w <= textlength font (a ++ w ++ b))%Q) ->
  wrap_line font width padding lines line
  = wrap_words_from font width padding (lines, []) pre ++
    w :: match post with
         | [] => []
         | next :: rest => wrap_words_from font width padding ([], next) rest
         end /\
  (pre = [] ->
   exists after, wrap_line font width padding lines line
                 = lines ++ [] :: w :: after).
Proof.
  intros Hsplit Hover Hmono.
  pose proof (split_words line) as Hwords. rewrite Hsplit in Hwords.
  apply Forall_app in Hwords. destruct Hwords as [_ Hwords].
  inversion Hwords as [|? ? Hw Hpost]; subst.
  assert (E : wrap_line font width padding lines line
              = wrap_words_from font width padding (lines, []) pre ++
                w :: match post with
                     | [] => []
                     | next :: rest =>
                         wrap_words_from font width padding ([], next) rest
                     end).
  { rewrite wrap_line_loop, Hsplit, fold_wrap_step.
    rewrite (loop_overflowing_word font width padding w post
               Hw Hpost Hover Hmono), <- app_assoc.
    do 3 f_equal. destruct post as [|next rest]; [reflexivity|].
    now rewrite fold_wrap_step. }
  split; [exact E|].
  intros ->. rewrite E, fold_wrap_step. simpl.
  rewrite <- app_assoc. eexists. reflexivity.
Qed.

Lemma overflowing_word_on_its_own_line_witness :
  wrap_line (fixed_pitch 10) 384 8 [] long_line
  = wrap_words_from (fixed_pitch 10) 384 8 ([], []) [of_string "ab"] ++
    long_word :: wrap_words_from (fixed_pitch 10) 384 8 ([], of_string "cd")
                   [of_string "ef"].
Proof.
  refine (proj1 (overflowing_word_on_its_own_line (fixed_pitch 10) 384 8 []
                   long_line [of_string "ab"] long_word
                   [of_string "cd"; of_string "ef"] _ _ _)).
  - reflexivity.
  - vm_compute. reflexivity.
  - intros a b. apply fixed_pitch_monotone. lia.
Defined.

Lemma flat_map_split_flat_map (f : str -> list str) (src : list str) :
  (forall line, flat_map split (f line) = split line) ->
  flat_map split (flat_map f src) = flat_map split src.
Proof.
  intros Hf. induction src as [|line rest IH]; simpl.
  - reflexivity.
  - now rewrite flat_map_app, Hf, IH.
Qed.

(** C10. The wrap loop preserves content: the whitespace-split words of
    the lines emitted for a source line, concatenated in emission order,
    are exactly the whitespace-split words of that source line, and no
    emitted line starts or ends with whitespace; hence the same holds
    for a whole text. *)
Theorem wrap_preserves_words (font : Font) (width padding : Z) :
  (forall line,
      flat_map split (wrap_line font width padding [] line) = split line /\
      Forall no_edge_space (wrap_line font width padding [] line)) /\
  (forall text,
      flat_map split (wrap_text font width padding text)
      = flat_map split (splitlines text) /\
      Forall no_edge_space (wrap_text font width padding text)).
Proof.
  assert (Hline : forall line,
             flat_map split (wrap_loop font width padding [] (split line))
             = split line /\
             Forall no_edge_space
               (wrap_loop font width padding [] (split line))).
  { intros line.
    exact (loop_words font width padding (split line) (split_words line)
             [] (Forall_nil _)). }
  split.
  - intros line. rewrite wrap_line_loop. apply Hline.
  - intros text. rewrite wrap_text_flat_map. split.
    + apply flat_map_split_flat_map. intros line. apply Hline.
    + induction (splitlines text) as [|line rest IH]; simpl.
      * constructor.
      * apply Forall_app. split; [apply Hline | exact IH].
Qed.

(** ** Runs of the handlers *)

Section HandlerFacts.

Variable cfg : Config.
Variable w : World.

Lemma draw_lines_events (padding step : Z) (lines : list str) :
  forall y,
    draw_lines padding step y lines
    = (draw_events padding step y lines, Returned tt).
Proof.
  induction lines as [|line rest IH]; intros y; simpl.
  - reflexivity.
  - now rewrite IH.
Qed.

Lemma canvases_app (a b : list event) :
  canvases (a ++ b) = canvases a ++ canvases b.
Proof.
  induction a as [|e a IH]; simpl; [reflexivity|].
  destruct e as [| | size [|] | | | | | |]; simpl; now rewrite ?IH.
Qed.

Lemma drawn_app (a b : list event) : drawn (a ++ b) = drawn a ++ drawn b.
Proof.
  induction a as [|e a IH]; simpl; [reflexivity|].
  destruct e; simpl; now rewrite ?IH.
Qed.

Lemma drawn_draw_events (padding step : Z) (lines : list str) :
  forall y, drawn (draw_events padding step y lines) = lines.
Proof.
  induction lines as [|line rest IH]; intros y; simpl; [reflexivity|].
  now rewrite IH.
Qed.

Lemma canvases_draw_events (padding step : Z) (lines : list str) :
  forall y, canvases (draw_events padding step y lines) = [].
Proof.
  induction lines as [|line rest IH]; intros y; simpl; [reflexivity|].
  apply IH.
Qed.

Lemma no_reply_draw_events (padding step : Z) (lines : list str) :
  forall y, existsb is_reply (draw_events padding step y lines) = false.
Proof.
  induction lines as [|line rest IH]; intros y; simpl; [reflexivity|].
  apply IH.
Qed.

Lemma no_popen_draw_events (padding step : Z) (lines : list str) :
  forall y, existsb is_popen (draw_events padding step y lines) = false.
Proof.
  induction lines as [|line rest IH]; intros y; simpl; [reflexivity|].
  apply IH.
Qed.

Lemma no_error_log_draw_events (padding step : Z) (lines : list str) :
  forall y, existsb is_error_log (draw_events padding step y lines) = false.
Proof.
  induction lines as [|line rest IH]; intros y; simpl; [reflexivity|].
  apply IH.
Qed.

(** The three ways the temporary-file block can go. *)
Lemma print_image_save_fails (e : exn) :
  save_raises w = Some e ->
  print_image cfg w
  = (TempFileOpen (tmp_name w)
       (match delete_temp_files cfg with Some b => b | None => true end)
     :: release cfg w,
     Raised e).
Proof.
  intros Hsave. unfold print_image, with_NamedTemporaryFile, save, release.
  rewrite Hsave. reflexivity.
Qed.

Lemma print_image_launch_fails (script : str) (e : exn) :
  save_raises w = None ->
  printer_script cfg = Some script ->
  popen_raises w (split script ++ [tmp_name w]) = Some e ->
  is_Exception e = true ->
  print_image cfg w
  = ([TempFileOpen (tmp_name w)
        (match delete_temp_files cfg with Some b => b | None => true end);
      ImageSave (tmp_name w);
      Log INFO (ImageSaved (tmp_name w));
      Log INFO (CallingExternalProgram (split script ++ [tmp_name w]));
      Log ERROR (FailedToCallExternalProgram e)]
     ++ release cfg w,
     Returned tt).
Proof.
  intros Hsave Hscript Hpopen Hexn.
  unfold print_image, with_NamedTemporaryFile, save, dispatch, release.
  rewrite Hsave, Hscript. simpl. rewrite Hpopen. simpl. rewrite Hexn.
  reflexivity.
Qed.

Lemma print_image_launches (script : str) :
  save_raises w = None ->
  printer_script cfg = Some script ->
  popen_raises w (split script ++ [tmp_name w]) = None ->
  print_image cfg w
  = ([TempFileOpen (tmp_name w)
        (match delete_temp_files cfg with Some b => b | None => true end);
      ImageSave (tmp_name w);
      Log INFO (ImageSaved (tmp_name w));
      Log INFO (CallingExternalProgram (split script ++ [tmp_name w]));
      Popen (split script ++ [tmp_name w])]
     ++ release cfg w,
     Returned tt).
Proof.
  intros Hsave Hscript Hpopen.
  unfold print_image, with_NamedTemporaryFile, save, dispatch, release.
  rewrite Hsave, Hscript. simpl. rewrite Hpopen. reflexivity.
Qed.

(** The block allocates no canvas, draws no line and sends no reply. *)
Lemma print_image_observations :
  canvases (fst (print_image cfg w)) = [] /\
  drawn (fst (print_image cfg w)) = [] /\
  existsb is_reply (fst (print_image cfg w)) = false.
Proof.
  unfold print_image, with_NamedTemporaryFile, save, dispatch.
  destruct (save_raises w) as [e|]; simpl.
  - destruct (delete_temp_files cfg) as [[|]|]; simpl; auto.
  - destruct (printer_script cfg) as [script|]; simpl.
    + destruct (popen_raises w (split script ++ [tmp_name w])) as [e|]; simpl.
      * destruct (is_Exception e);
          destruct (delete_temp_files cfg) as [[|]|]; simpl; auto.
      * destruct (delete_temp_files cfg) as [[|]|]; simpl; auto.
    + destruct (delete_temp_files cfg) as [[|]|]; simpl; auto.
Qed.

Arguments wrap_text : simpl never.
Arguments print_image : simpl never.

(** The run of [handle_message] up to the temporary-file block. *)
Lemma handle_message_renders (update : Update) (user : User) (msg : Message)
  (name body : str) :
  reaches_rendering cfg update user msg name body ->
  handle_message cfg w update
  = ([Log INFO UserMessage; Log INFO ProcessingMessage;
      ImageNew (384, 1) false;
      ImageNew
        (384,
         (line_height_of (font w) + 8)
         * Z.of_nat (List.length (lines_of cfg w msg name body)) + 2 * 8)
        true]
     ++ draw_events 8 (line_height_of (font w) + 8) 8
          (lines_of cfg w msg name body)
     ++ fst (print_image cfg w),
     snd (print_image cfg w)).
Proof.
  intros (Huser & Hallowed & Hmsg & Htext & Hbody & Hname).
  unfold handle_message, format_text, lines_of, text_of.
  rewrite Huser. simpl. rewrite Hallowed, Hmsg. simpl. rewrite Htext.
  destruct body as [|c body']; [contradiction|]. simpl.
  rewrite Hname. simpl. rewrite draw_lines_events.
  destruct (print_image cfg w) as [tr r]. reflexivity.
Qed.

(** The runs that stop before rendering. *)
Lemma handle_message_denied (update : Update) (user : User) :
  effective_user update = Some user ->
  contains (allowed_users cfg) (id user) = false ->
  handle_message cfg w update
  = ([Log INFO UserMessage; Log WARNING Denied], Returned tt).
Proof.
  intros Huser Hdenied. unfold handle_message.
  rewrite Huser. simpl. now rewrite Hdenied.
Qed.

Lemma handle_message_skipped (update : Update) (user : User) (msg : Message) :
  effective_user update = Some user ->
  contains (allowed_users cfg) (id user) = true ->
  message update = Some msg ->
  text msg = None \/ text msg = Some [] ->
  handle_message cfg w update = ([Log INFO UserMessage], Returned tt).
Proof.
  intros Huser Hallowed Hmsg Htext. unfold handle_message.
  rewrite Huser. simpl. rewrite Hallowed, Hmsg. simpl.
  destruct Htext as [-> | ->]; reflexivity.
Qed.

End HandlerFacts.

(** ** The access gate *)

Lemma contains_In (allowed : list Z) (sender : Z) :
  contains allowed sender = true <-> In sender allowed.
Proof.
  induction allowed as [|y rest IH]; simpl.
  - split; [discriminate | contradiction].
  - destruct (Z.eqb_spec sender y) as [->|Hne].
    + split; [now left | reflexivity].
    + rewrite IH. split; [now right|].
      intros [E|H]; [now symmetry in E | exact H].
Qed.

(** C4. The authorization test of both handlers, [id in allowed_users],
    is true exactly for the ids listed in the configured list; with an
    empty list it is false for every id, and a configuration without
    the [allowed_users] option (or with a blank one) gives the empty
    list, whatever [int] does. *)
Theorem authorized_iff_listed (allowed : list Z) (sender : Z) :
  (contains allowed sender = true <-> In sender allowed) /\
  contains [] sender = false /\
  (forall int, load_allowed_users int None = Some []) /\
  (forall int value,
      split value = [] -> load_allowed_users int (Some value) = Some []).
Proof.
  split; [apply contains_In|].
  split; [reflexivity|].
  split; [reflexivity|].
  intros int value Hblank. unfold load_allowed_users. now rewrite Hblank.
Qed.

Example scenario_3_unauthorized :
  contains (allowed_users sample_config) 999 = false /\
  contains (allowed_users sample_config) 456 = true.
Proof. split; reflexivity. Qed.

(** ** Denial *)

(** C1. What the code does for a message of a sender that is not
    allowed: [handle_message] logs the denial and returns; it reaches
    none of the rendering and dispatch stages, and it sends no reply.
    Only [handle_start] answers such a sender that the bot is private. *)
Theorem handle_message_denied_sends_no_reply
  (cfg : Config) (w : World) (update : Update) (user : User) :
  effective_user update = Some user ->
  contains (allowed_users cfg) (id user) = false ->
  handle_message cfg w update
  = ([Log INFO UserMessage; Log WARNING Denied], Returned tt) /\
  existsb is_reply (fst (handle_message cfg w update)) = false /\
  existsb is_pipeline (fst (handle_message cfg w update)) = false /\
  (message update <> None ->
   handle_start cfg update
   = ([Log INFO UserStart; Log WARNING Denied;
       ReplyText (of_string "Sorry, this bot is private.")],
      Returned tt)).
Proof.
  intros Huser Hdenied.
  rewrite (handle_message_denied cfg w update user Huser Hdenied).
  repeat split.
  intros Hmsg. unfold handle_start, reply_text.
  rewrite Huser. simpl. rewrite Hdenied.
  destruct (message update); [reflexivity | contradiction].
Qed.

Lemma handle_message_denied_sends_no_reply_witness :
  handle_message sample_config sample_world
    (sample_update 999 (Some (of_string "Hello world")))
  = ([Log INFO UserMessage; Log WARNING Denied], Returned tt).
Proof.
  refine (proj1 (handle_message_denied_sends_no_reply sample_config
                   sample_world
                   (sample_update 999 (Some (of_string "Hello world")))
                   (sample_user 999) _ _)).
  - reflexivity.
  - reflexivity.
Defined.

(** ** Empty body *)

(** C5. A message whose text is absent or empty never reaches rendering
    or dispatch: the run contains no canvas allocation, no drawing, no
    temporary file, no save and no external command, sends no reply,
    and, the sender being known, returns normally. *)
Theorem empty_body_is_skipped
  (cfg : Config) (w : World) (update : Update) (msg : Message) :
  message update = Some msg ->
  text msg = None \/ text msg = Some [] ->
  existsb is_pipeline (fst (handle_message cfg w update)) = false /\
  existsb is_reply (fst (handle_message cfg w update)) = false /\
  (forall user,
      effective_user update = Some user ->
      snd (handle_message cfg w update) = Returned tt).
Proof.
  intros Hmsg Htext.
  destruct (effective_user update) as [user|] eqn:Huser.
  - destruct (contains (allowed_users cfg) (id user)) eqn:Hallowed.
    + rewrite (handle_message_skipped cfg w update user msg
                 Huser Hallowed Hmsg Htext).
      repeat split.
    + rewrite (handle_message_denied cfg w update user Huser Hallowed).
      repeat split.
  - unfold handle_message. rewrite Huser. simpl.
    repeat split. intros user Habs. discriminate.
Qed.

Lemma empty_body_is_skipped_witness :
  existsb is_pipeline
    (fst (handle_message sample_config sample_world
            (sample_update 123 (Some [])))) = false.
Proof.
  refine (proj1 (empty_body_is_skipped sample_config sample_world
                   (sample_update 123 (Some [])) (sample_message (Some []))
                   _ _)).
  - reflexivity.
  - right. reflexivity.
Defined.

(** ** Canvas height *)

Lemma rendered_observations (cfg : Config) (w : World) (update : Update)
  (user : User) (msg : Message) (name body : str) :
  reaches_rendering cfg update user msg name body ->
  canvases (fst (handle_message cfg w update))
  = [(384,
      (line_height_of (font w) + 8)
      * Z.of_nat (List.length (lines_of cfg w msg name body)) + 2 * 8)] /\
  drawn (fst (handle_message cfg w update)) = lines_of cfg w msg name body.
Proof.
  intros Hr.
  rewrite (handle_message_renders cfg w update user msg name body Hr).
  destruct (print_image_observations cfg w) as (Hc & Hd & _).
  cbn [fst]. rewrite canvases_app, drawn_app, canvases_app, drawn_app.
  rewrite Hc, Hd, canvases_draw_events, drawn_draw_events.
  cbn [canvases drawn app]. rewrite app_nil_r. split; reflexivity.
Qed.

(** C3. The canvas allocated for a message has height
    [(line_height + spacing) * line_count + 2 * padding], with spacing
    and padding 8 and [line_count] the number of wrapped lines: this
    holds of every canvas a run of [handle_message] allocates, counted
    against the lines the run draws, and a run that reaches rendering
    allocates exactly one canvas and draws exactly the wrapped lines. *)
Theorem canvas_height_law (cfg : Config) (w : World) (update : Update) :
  (forall size,
      In size (canvases (fst (handle_message cfg w update))) ->
      size
      = (384,
         (line_height_of (font w) + 8)
         * Z.of_nat
             (List.length (drawn (fst (handle_message cfg w update))))
         + 2 * 8)) /\
  (forall user msg name body,
      reaches_rendering cfg update user msg name body ->
      canvases (fst (handle_message cfg w update))
      = [(384,
          (line_height_of (font w) + 8)
          * Z.of_nat (List.length (lines_of cfg w msg name body)) + 2 * 8)] /\
      drawn (fst (handle_message cfg w update))
      = lines_of cfg w msg name body /\
      lines_of cfg w msg name body
      = wrap_text (font w) 384 8
          (isoformat w
             (match timezone cfg with
              | Some z => z
              | None => of_string "UTC"
              end) (date msg)
           ++ [LF] ++ name ++ [LF; LF] ++ body)).
Proof.
  split.
  - intros size Hsize.
    destruct (effective_user update) as [user|] eqn:Huser;
      [|unfold handle_message in Hsize; rewrite Huser in Hsize;
        contradiction].
    destruct (contains (allowed_users cfg) (id user)) eqn:Hallowed;
      [|rewrite (handle_message_denied cfg w update user Huser Hallowed)
          in Hsize; contradiction].
    destruct (message update) as [msg|] eqn:Hmsg;
      [|unfold handle_message in Hsize;
        rewrite Huser in Hsize; simpl in Hsize;
        rewrite Hallowed, Hmsg in Hsize; contradiction].
    destruct (text msg) as [[|c body]|] eqn:Htext;
      [rewrite (handle_message_skipped cfg w update user msg
                  Huser Hallowed Hmsg (or_intror Htext)) in Hsize;
       contradiction
      | |rewrite (handle_message_skipped cfg w update user msg
                    Huser Hallowed Hmsg (or_introl Htext)) in Hsize;
         contradiction].
    destruct (username user) as [name|] eqn:Hname.
    + assert (Hr : reaches_rendering cfg update user msg name (c :: body)).
      { repeat split; try assumption. discriminate. }
      destruct (rendered_observations cfg w update user msg name (c :: body) Hr)
        as [Hc Hd].
      rewrite Hc in Hsize. rewrite Hd.
      destruct Hsize as [<-|[]]. reflexivity.
    + unfold handle_message, format_text in Hsize.
      rewrite Huser in Hsize. simpl in Hsize.
      rewrite Hallowed, Hmsg in Hsize. simpl in Hsize.
      rewrite Htext in Hsize. simpl in Hsize.
      rewrite Hname in Hsize. contradiction.
  - intros user msg name body Hr.
    destruct (rendered_observations cfg w update user msg name body Hr)
      as [Hc Hd].
    repeat split; assumption || reflexivity.
Qed.

Example canvas_of_hello_world :
  canvases
    (fst (handle_message sample_config sample_world
            (sample_update 123 (Some (of_string "Hello world")))))
  = [(384, (18 + 8) * 4 + 2 * 8)].
Proof. vm_compute. reflexivity. Qed.

(** ** Failures of the save and of the launch *)

Lemma In_draw_events (padding step : Z) (lines : list str) (e : event) :
  forall y,
    In e (draw_events padding step y lines) ->
    exists xy line, e = DrawText xy line.
Proof.
  induction lines as [|line rest IH]; intros y He; simpl in He.
  - contradiction.
  - destruct He as [<-|He]; [now eexists _, _ | now apply (IH (y + step))].
Qed.

(** C8, as the claim states it: at this input the failure of [img.save]
    is neither logged nor contained; it leaves [handle_message] as an
    exception. *)
Lemma save_failure_is_not_recovered :
  snd (handle_message sample_config failing_save_world
         (sample_update 123 (Some (of_string "Hello world"))))
  = Raised OSError /\
  snd (handle_message sample_config failing_save_world
         (sample_update 123 (Some (of_string "Hello world"))))
  <> Returned tt /\
  existsb is_error_log
    (fst (handle_message sample_config failing_save_world
            (sample_update 123 (Some (of_string "Hello world")))))
  = false.
Proof.
  split; [vm_compute; reflexivity|].
  split; [vm_compute; discriminate | vm_compute; reflexivity].
Qed.

(** C8, amended. If [img.save] raises, the temporary file is still
    released: the run ends with its closing, followed by its removal
    unless retention is configured ([delete_temp_files] false), and no
    external command is launched.  The failure itself is not caught by
    the handler: nothing is logged as an error and the exception
    propagates out of [handle_message]. *)
Theorem save_failure_releases_temp_file
  (cfg : Config) (w : World) (update : Update) (user : User) (msg : Message)
  (name body : str) (e : exn) :
  reaches_rendering cfg update user msg name body ->
  save_raises w = Some e ->
  snd (handle_message cfg w update) = Raised e /\
  (exists before,
      fst (handle_message cfg w update) = before ++ release cfg w) /\
  In (TempFileClose (tmp_name w)) (fst (handle_message cfg w update)) /\
  (delete_temp_files cfg <> Some false ->
   In (TempFileUnlink (tmp_name w)) (fst (handle_message cfg w update))) /\
  (delete_temp_files cfg = Some false ->
   ~ In (TempFileUnlink (tmp_name w)) (fst (handle_message cfg w update))) /\
  existsb is_popen (fst (handle_message cfg w update)) = false /\
  existsb is_error_log (fst (handle_message cfg w update)) = false.
Proof.
  intros Hr Hsave.
  rewrite (handle_message_renders cfg w update user msg name body Hr).
  rewrite (print_image_save_fails cfg w e Hsave). cbn [fst snd].
  split; [reflexivity|].
  split.
  { match goal with
    | |- exists _, ?a ++ ?d ++ ?o :: ?r = _ => exists (a ++ d ++ [o])
    end.
    rewrite <- app_assoc, <- app_assoc. reflexivity. }
  split.
  { apply in_or_app. right. apply in_or_app. right. right. now left. }
  split.
  { intros Hdel. apply in_or_app. right. apply in_or_app. right.
    right. right. unfold release.
    destruct (delete_temp_files cfg) as [[|]|];
      [now left | contradiction | now left]. }
  split.
  { intros Hkeep Hin. unfold release in Hin. rewrite Hkeep in Hin.
    apply in_app_or in Hin. destruct Hin as [Hin|Hin].
    - simpl in Hin. intuition discriminate.
    - apply in_app_or in Hin. destruct Hin as [Hin|Hin].
      + apply In_draw_events in Hin. destruct Hin as (xy & line & Hin).
        discriminate.
      + simpl in Hin. intuition discriminate. }
  split.
  - rewrite !existsb_app, no_popen_draw_events. unfold release.
    destruct (delete_temp_files cfg) as [[|]|]; reflexivity.
  - rewrite !existsb_app, no_error_log_draw_events. unfold release.
    destruct (delete_temp_files cfg) as [[|]|]; reflexivity.
Qed.

Lemma save_failure_releases_temp_file_witness :
  snd (handle_message sample_config failing_save_world
         (sample_update 123 (Some (of_string "Hello world"))))
  = Raised OSError.
Proof.
  refine (proj1 (save_failure_releases_temp_file sample_config
                   failing_save_world
                   (sample_update 123 (Some (of_string "Hello world")))
                   (sample_user 123)
                   (sample_message (Some (of_string "Hello world")))
                   (of_string "alice") (of_string "Hello world") OSError _ _)).
  - unfold reaches_rendering. repeat split; try reflexivity. discriminate.
  - reflexivity.
Defined.

(** C9. If launching the external command raises an exception (an
    [Exception], as a missing executable or a refused permission is),
    it is caught and logged as an error, the temporary file is released
    and [handle_message] returns normally; no process is started and
    the sender receives no reply. *)
Theorem launch_failure_is_caught_and_logged
  (cfg : Config) (w : World) (update : Update) (user : User) (msg : Message)
  (name body script : str) (e : exn) :
  reaches_rendering cfg update user msg name body ->
  save_raises w = None ->
  printer_script cfg = Some script ->
  popen_raises w (split script ++ [tmp_name w]) = Some e ->
  is_Exception e = true ->
  snd (handle_message cfg w update) = Returned tt /\
  In (Log ERROR (FailedToCallExternalProgram e))
    (fst (handle_message cfg w update)) /\
  (exists before,
      fst (handle_message cfg w update) = before ++ release cfg w) /\
  existsb is_popen (fst (handle_message cfg w update)) = false /\
  existsb is_reply (fst (handle_message cfg w update)) = false.
Proof.
  intros Hr Hsave Hscript Hpopen Hexn.
  rewrite (handle_message_renders cfg w update user msg name body Hr).
  rewrite (print_image_launch_fails cfg w script e Hsave Hscript Hpopen Hexn).
  cbn [fst snd].
  split; [reflexivity|].
  split.
  { apply in_or_app. right. apply in_or_app. right.
    apply in_or_app. left. simpl. tauto. }
  split.
  { match goal with
    | |- exists _, ?a ++ ?d ++ ?p ++ ?r = _ => exists (a ++ d ++ p)
    end.
    rewrite <- app_assoc, <- app_assoc. reflexivity. }
  split.
  - rewrite !existsb_app, no_popen_draw_events. unfold release.
    destruct (delete_temp_files cfg) as [[|]|]; reflexivity.
  - rewrite !existsb_app, no_reply_draw_events. unfold release.
    destruct (delete_temp_files cfg) as [[|]|]; reflexivity.
Qed.

Lemma launch_failure_is_caught_and_logged_witness :
  snd (handle_message sample_config failing_launch_world
         (sample_update 123 (Some (of_string "Hello world"))))
  = Returned tt.
Proof.
  refine (proj1 (launch_failure_is_caught_and_logged sample_config
                   failing_launch_world
                   (sample_update 123 (Some (of_string "Hello world")))
                   (sample_user 123)
                   (sample_message (Some (of_string "Hello world")))
                   (of_string "alice") (of_string "Hello world")
                   (of_string "lp -d thermal") FileNotFoundError _ _ _ _ _)).
  - unfold reaches_rendering. repeat split; try reflexivity. discriminate.
  - reflexivity.
  - reflexivity.
  - reflexivity.
  - reflexivity.
Defined.

(** * Further properties of the code *)

(** ** The shape of the wrapped lines *)

Lemma Forall_take {A} (P : A -> Prop) (k : nat) (l : list A) :
  Forall P l -> Forall P (firstn k l).
Proof.
  intros H. revert k. induction H as [|x l Hx _ IH]; intros [|k]; simpl;
    constructor; auto.
Qed.

Section WrapShape.

Variable font : Font.
Variables width padding : Z.

Lemma candidate_unwords (g : list str) (word : str) :
  Forall is_word g -> is_word word ->
  strip (unwords g ++ SPACE :: word) = unwords (g ++ [word]).
Proof.
  intros Hg Hword.
  change (unwords g ++ SPACE :: word) with (unwords g ++ [SPACE] ++ word).
  rewrite strip_candidate; [|now apply unwords_head_ok | exact Hword].
  rewrite unwords_snoc.
  destruct g as [|v g']; [reflexivity|].
  destruct (unwords (v :: g')) eqn:U; [|reflexivity].
  apply unwords_nil_iff in U; [discriminate | exact Hg].
Qed.

Lemma unwords_not_nil (g : list str) :
  Forall is_word g -> g <> [] -> unwords g <> [].
Proof.
  intros Hg Hne E. apply Hne. now apply unwords_nil_iff.
Qed.

(** The lines of the loop are groups of consecutive words, each joined
    by single spaces; the first group extends the accumulator's, the
    later ones are not empty. *)
Lemma loop_groups (words : list str) :
  Forall is_word words ->
  forall g,
    Forall is_word g ->
    exists k tail,
      wrap_loop font width padding (unwords g) words
      = unwords (g ++ firstn k words) :: map unwords tail /\
      (g ++ firstn k words) ++ List.concat tail = g ++ words /\
      Forall (fun grp => grp <> []) tail.
Proof.
  induction 1 as [|word rest Hword Hrest IH]; intros g Hg.
  - exists 0%nat, []. simpl. rewrite !app_nil_r. repeat split. constructor.
  - assert (Hgw : Forall is_word (g ++ [word])).
    { apply Forall_app. split; [exact Hg | now constructor]. }
    simpl. rewrite (candidate_unwords g word Hg Hword).
    destruct (fits font width padding (unwords (g ++ [word]))).
    + destruct (IH (g ++ [word]) Hgw) as (k & tail & E & Hcat & Htail).
      exists (S k), tail. simpl firstn.
      replace (g ++ word :: firstn k rest)
        with ((g ++ [word]) ++ firstn k rest) by now rewrite <- app_assoc.
      split; [exact E|]. split; [|exact Htail].
      rewrite Hcat, <- app_assoc. reflexivity.
    + assert (Hone : Forall is_word [word]) by now constructor.
      destruct (IH [word] Hone) as (k & tail & E & Hcat & Htail).
      exists 0%nat, (([word] ++ firstn k rest) :: tail).
      simpl firstn. rewrite app_nil_r. simpl in E. simpl map.
      split; [now rewrite E|]. split.
      * simpl List.concat. simpl in Hcat. simpl. now rewrite Hcat.
      * constructor; [discriminate | exact Htail].
Qed.

Lemma loop_greedy (words : list str) :
  Forall is_word words ->
  forall g pre l1 l2 post,
    Forall is_word g ->
    wrap_loop font width padding (unwords g) words
    = pre ++ l1 :: l2 :: post ->
    exists word more,
      split l2 = word :: more /\
      fits font width padding (strip (l1 ++ [SPACE] ++ word)) = false.
Proof.
  induction 1 as [|word rest Hword Hrest IH];
    intros g pre l1 l2 post Hg E; simpl in E.
  - destruct pre as [|p [|q pre']]; discriminate.
  - assert (Hgw : Forall is_word (g ++ [word])).
    { apply Forall_app. split; [exact Hg | now constructor]. }
    assert (Hone : Forall is_word [word]) by now constructor.
    destruct (fits font width padding (strip (unwords g ++ SPACE :: word)))
      eqn:F.
    + rewrite (candidate_unwords g word Hg Hword) in E.
      now apply (IH (g ++ [word]) pre l1 l2 post Hgw).
    + destruct pre as [|p pre'].
      * simpl in E. injection E as E1 E2. subst l1.
        destruct (loop_groups rest Hrest [word] Hone)
          as (k & tail & Eg & Hcat & _).
        simpl unwords at 1 in Eg. rewrite Eg in E2.
        injection E2 as E2 _. subst l2.
        exists word, (firstn k rest). split; [|exact F].
        apply (split_unwords ([word] ++ firstn k rest)).
        apply Forall_app. split; [exact Hone|].
        now apply Forall_take.
      * simpl in E. injection E as _ E.
        now apply (IH [word] pre' l1 l2 post Hone).
Qed.

Lemma loop_single_line (words : list str) :
  Forall is_word words ->
  forall g,
    Forall is_word g ->
    (forall pre post,
        words = pre ++ post -> pre <> [] ->
        (textlength font (unwords (g ++ pre)) <= budget width padding)%Q) ->
    wrap_loop font width padding (unwords g) words = [unwords (g ++ words)].
Proof.
  induction 1 as [|word rest Hword Hrest IH]; intros g Hg Hfit; simpl.
  - now rewrite app_nil_r.
  - assert (Hgw : Forall is_word (g ++ [word])).
    { apply Forall_app. split; [exact Hg | now constructor]. }
    rewrite (candidate_unwords g word Hg Hword).
    assert (F : fits font width padding (unwords (g ++ [word])) = true).
    { apply fits_true. apply (Hfit [word] rest); [reflexivity | discriminate]. }
    rewrite F, (IH (g ++ [word]) Hgw).
    + now rewrite <- app_assoc.
    + intros pre post E Hne. rewrite <- app_assoc. simpl.
      apply (Hfit (word :: pre) post); [now rewrite E | discriminate].
Qed.

Lemma loop_length (words : list str) :
  forall cur,
    (1 <= List.length (wrap_loop font width padding cur words)
     <= S (List.length words))%nat.
Proof.
  induction words as [|word rest IH]; intros cur; simpl.
  - lia.
  - destruct (fits font width padding (strip (cur ++ SPACE :: word))).
    + specialize (IH (strip (cur ++ SPACE :: word))). lia.
    + specialize (IH word). simpl. lia.
Qed.

End WrapShape.

Lemma fits_false_lt (font : Font) (width padding : Z) (s : str) :
  fits font width padding s = false ->
  (budget width padding < textlength font s)%Q.
Proof.
  intros F. apply Qnot_le_lt. intros H.
  apply (fits_true font width padding s) in H. congruence.
Qed.

(** X1. The wrap is greedy: a line is closed only when the next word
    did not fit on it.  For two consecutive lines emitted for one source
    line, the first line extended by a space and the first word of the
    second line measures more than the budget. *)
Theorem wrap_line_is_greedy
  (font : Font) (width padding : Z) (line : str)
  (pre : list str) (l1 l2 : str) (post : list str) :
  wrap_line font width padding [] line = pre ++ l1 :: l2 :: post ->
  exists word more,
    split l2 = word :: more /\
    (budget width padding
     < textlength font (strip (l1 ++ [SPACE] ++ word)))%Q.
Proof.
  intros E. rewrite wrap_line_loop in E. simpl in E.
  destruct (loop_greedy font width padding (split line) (split_words line)
              [] pre l1 l2 post (Forall_nil _) E) as (word & more & Hs & F).
  exists word, more. split; [exact Hs|]. now apply fits_false_lt.
Qed.

Lemma wrap_line_is_greedy_witness :
  exists word more,
    split (of_string "cd ef") = word :: more /\
    (budget 384 8
     < textlength (fixed_pitch 10)
         (strip (long_word ++ [SPACE] ++ word)))%Q.
Proof.
  refine (wrap_line_is_greedy (fixed_pitch 10) 384 8 long_line
            [of_string "ab"] long_word (of_string "cd ef") [] _).
  vm_compute. reflexivity.
Defined.

(** X2. Every emitted line is in normal form: it is its own
    whitespace-split words joined by single spaces, so tabs, no-break
    spaces and runs of blanks of the source never reach the image. *)
Theorem wrapped_lines_are_normalized
  (font : Font) (width padding : Z) (text : str) :
  Forall (fun l => unwords (split l) = l)
    (wrap_text font width padding text).
Proof.
  rewrite wrap_text_flat_map.
  induction (splitlines text) as [|line rest IH]; simpl; [constructor|].
  apply Forall_app. split; [|exact IH].
  destruct (loop_groups font width padding (split line) (split_words line)
              [] (Forall_nil _)) as (k & tail & E & Hcat & _).
  simpl in E, Hcat. rewrite E.
  pose proof (split_words line) as Hw. rewrite <- Hcat in Hw.
  apply Forall_app in Hw. destruct Hw as [Hfirst Htail].
  apply Forall_concat in Htail.
  constructor; [now rewrite split_unwords|].
  apply Forall_map.
  eapply Forall_impl; [|exact Htail].
  intros grp Hgrp. now rewrite split_unwords.
Qed.

(** X3. Of the lines emitted for one source line only the first can be
    empty, and it is empty exactly when the source line has no word or
    its first word alone exceeds the budget. *)
Theorem only_first_line_can_be_empty
  (font : Font) (width padding : Z) (line : str) :
  exists first rest,
    wrap_line font width padding [] line = first :: rest /\
    Forall (fun l => l <> []) rest /\
    (first = [] <->
     match split line with
     | [] => True
     | w :: _ => (budget width padding < textlength font w)%Q
     end).
Proof.
  rewrite wrap_line_loop. simpl app.
  pose proof (split_words line) as Hwords.
  destruct (loop_groups font width padding (split line) Hwords
              [] (Forall_nil _)) as (k & tail & E & Hcat & Hne).
  simpl in E, Hcat.
  exists (unwords (firstn k (split line))), (map unwords tail).
  split; [exact E|]. split.
  - pose proof Hwords as Hw. rewrite <- Hcat in Hw.
    apply Forall_app in Hw. destruct Hw as [_ Htail].
    apply Forall_concat in Htail. apply Forall_map.
    clear E Hcat. induction tail as [|grp tail IH]; constructor.
    + inversion Htail; inversion Hne; subst. now apply unwords_not_nil.
    + inversion Htail; inversion Hne; subst. now apply IH.
  - destruct (split line) as [|w ws] eqn:Hs.
    + destruct k; simpl; tauto.
    + inversion Hwords as [|? ? Hw Hws]; subst.
      simpl in E.
      pose proof (candidate_unwords [] w (Forall_nil _) Hw) as C.
      simpl in C. rewrite C in E.
      assert (Hone : Forall is_word [w]) by now constructor.
      destruct (fits font width padding w) eqn:F.
      * destruct (loop_groups font width padding ws Hws [w] Hone)
          as (k' & tail' & E' & _ & _).
        simpl unwords at 1 in E'. rewrite E' in E.
        injection E as E _. split.
        -- intros H0. rewrite H0 in E. exfalso.
           apply (unwords_not_nil ([w] ++ firstn k' ws));
             [|discriminate|exact E].
           apply Forall_app. split; [exact Hone | now apply Forall_take].
        -- intros Hover. apply fits_true in F.
           exfalso. exact (Qlt_not_le _ _ Hover F).
      * injection E as E _. split; [|now intros _].
        intros _. now apply fits_false_lt.
Qed.

(** X4. A source line yields at least one line and at most one line
    more than it has words; hence a text yields at least as many lines
    as it has source lines and at most that number plus its number of
    words. *)
Theorem line_count_bounds (font : Font) (width padding : Z) :
  (forall line,
      (1 <= List.length (wrap_line font width padding [] line)
       <= S (List.length (split line)))%nat) /\
  (forall text,
      (List.length (splitlines text)
       <= List.length (wrap_text font width padding text)
       <= List.length (splitlines text)
          + List.length (flat_map split (splitlines text)))%nat).
Proof.
  split.
  - intros line. rewrite wrap_line_loop. apply loop_length.
  - intros text. rewrite wrap_text_flat_map.
    induction (splitlines text) as [|line rest IH]; simpl; [lia|].
    rewrite !length_app.
    pose proof (loop_length font width padding (split line) []). lia.
Qed.

(** X5. A source line all of whose prefixes of words, joined by single
    spaces, measure within the budget comes out as one line: its words
    joined by single spaces. *)
Theorem fitting_line_stays_whole
  (font : Font) (width padding : Z) (line : str) :
  (forall k,
      (1 <= k <= List.length (split line))%nat ->
      (textlength font (unwords (firstn k (split line)))
       <= budget width padding)%Q) ->
  wrap_line font width padding [] line = [unwords (split line)].
Proof.
  intros Hfit. rewrite wrap_line_loop. simpl app.
  apply (loop_single_line font width padding (split line) (split_words line)
           [] (Forall_nil _)).
  intros pre post E Hne. simpl.
  assert (Hpre : firstn (List.length pre) (split line) = pre).
  { rewrite E, firstn_app, firstn_all, Nat.sub_diag. simpl.
    apply app_nil_r. }
  rewrite <- Hpre. apply Hfit. rewrite E, length_app.
  destruct pre; [contradiction | simpl; lia].
Qed.

Lemma fitting_line_stays_whole_witness :
  wrap_line (fixed_pitch 10) 384 8 [] (of_string "  Hello   world ")
  = [unwords (split (of_string "  Hello   world "))].
Proof.
  refine (fitting_line_stays_whole (fixed_pitch 10) 384 8
            (of_string "  Hello   world ") _).
  intros k Hk.
  destruct k as [|[|[|k]]];
    [simpl in Hk; lia | vm_compute; discriminate | vm_compute; discriminate
    | simpl in Hk; lia].
Defined.

(** ** All the runs of the handlers *)

Section Runs.

Variable cfg : Config.
Variable w : World.

(** The temporary-file block: its events between the opening and the
    release, and its outcome. *)
Lemma print_image_cases :
  exists mid r,
    print_image cfg w
    = (TempFileOpen (tmp_name w) (delete_flag cfg) :: mid ++ release cfg w,
       r) /\
    ((exists e, save_raises w = Some e /\ mid = [] /\ r = Raised e) \/
     (save_raises w = None /\ printer_script cfg = None /\
      mid = [ImageSave (tmp_name w); Log INFO (ImageSaved (tmp_name w));
             Log ERROR (FailedToCallExternalProgram KeyError)] /\
      r = Returned tt) \/
     (exists script,
         save_raises w = None /\ printer_script cfg = Some script /\
         popen_raises w (split script ++ [tmp_name w]) = None /\
         mid = [ImageSave (tmp_name w); Log INFO (ImageSaved (tmp_name w));
                Log INFO
                  (CallingExternalProgram (split script ++ [tmp_name w]));
                Popen (split script ++ [tmp_name w])] /\
         r = Returned tt) \/
     (exists script e,
         save_raises w = None /\ printer_script cfg = Some script /\
         popen_raises w (split script ++ [tmp_name w]) = Some e /\
         is_Exception e = true /\
         mid = [ImageSave (tmp_name w); Log INFO (ImageSaved (tmp_name w));
                Log INFO
                  (CallingExternalProgram (split script ++ [tmp_name w]));
                Log ERROR (FailedToCallExternalProgram e)] /\
         r = Returned tt) \/
     (exists script e,
         save_raises w = None /\ printer_script cfg = Some script /\
         popen_raises w (split script ++ [tmp_name w]) = Some e /\
         is_Exception e = false /\
         mid = [ImageSave (tmp_name w); Log INFO (ImageSaved (tmp_name w));
                Log INFO
                  (CallingExternalProgram (split script ++ [tmp_name w]))] /\
         r = Raised e)).
Proof.
  unfold print_image, with_NamedTemporaryFile, save, dispatch, release,
    delete_flag.
  destruct (save_raises w) as [e|] eqn:Hsave; simpl.
  - exists [], (Raised e). split; [reflexivity|]. left. now exists e.
  - destruct (printer_script cfg) as [script|] eqn:Hscript; simpl.
    + destruct (popen_raises w (split script ++ [tmp_name w])) as [e|]
        eqn:Hpopen; simpl.
      * destruct (is_Exception e) eqn:Hexn; simpl.
        -- exists [ImageSave (tmp_name w); Log INFO (ImageSaved (tmp_name w));
                   Log INFO
                     (CallingExternalProgram (split script ++ [tmp_name w]));
                   Log ERROR (FailedToCallExternalProgram e)], (Returned tt).
           split; [reflexivity|].
           right. right. right. left. exists script, e. now repeat split.
        -- exists [ImageSave (tmp_name w); Log INFO (ImageSaved (tmp_name w));
                   Log INFO
                     (CallingExternalProgram (split script ++ [tmp_name w]))],
             (Raised e).
           split; [reflexivity|].
           right. right. right. right. exists script, e. now repeat split.
      * exists [ImageSave (tmp_name w); Log INFO (ImageSaved (tmp_name w));
                Log INFO
                  (CallingExternalProgram (split script ++ [tmp_name w]));
                Popen (split script ++ [tmp_name w])], (Returned tt).
        split; [reflexivity|].
        right. right. left. exists script. now repeat split.
    + exists [ImageSave (tmp_name w); Log INFO (ImageSaved (tmp_name w));
              Log ERROR (FailedToCallExternalProgram KeyError)],
        (Returned tt).
      split; [reflexivity|].
      right. left. now repeat split.
Qed.

Arguments wrap_text : simpl never.
Arguments print_image : simpl never.

(** The six ways a run of [handle_message] can go. *)
Lemma handle_message_cases (update : Update) :
  (effective_user update = None /\
   handle_message cfg w update
   = ([Log INFO UserMessage], Raised AttributeError)) \/
  (exists user,
      effective_user update = Some user /\
      contains (allowed_users cfg) (id user) = false /\
      handle_message cfg w update
      = ([Log INFO UserMessage; Log WARNING Denied], Returned tt)) \/
  (exists user,
      effective_user update = Some user /\
      contains (allowed_users cfg) (id user) = true /\
      message update = None /\
      handle_message cfg w update
      = ([Log INFO UserMessage], Raised AttributeError)) \/
  (exists user msg,
      effective_user update = Some user /\
      contains (allowed_users cfg) (id user) = true /\
      message update = Some msg /\
      (text msg = None \/ text msg = Some []) /\
      handle_message cfg w update = ([Log INFO UserMessage], Returned tt)) \/
  (exists user msg body,
      effective_user update = Some user /\
      contains (allowed_users cfg) (id user) = true /\
      message update = Some msg /\
      text msg = Some body /\ body <> [] /\
      username user = None /\
      handle_message cfg w update
      = ([Log INFO UserMessage; Log INFO ProcessingMessage;
          ImageNew (384, 1) false],
         Raised TypeError)) \/
  (exists user msg name body,
      reaches_rendering cfg update user msg name body /\
      handle_message cfg w update
      = (rendering_events cfg w msg name body ++ fst (print_image cfg w),
         snd (print_image cfg w))).
Proof.
  destruct (effective_user update) as [user|] eqn:Huser.
  2:{ left. split; [reflexivity|]. unfold handle_message.
      now rewrite Huser. }
  right.
  destruct (contains (allowed_users cfg) (id user)) eqn:Hallowed.
  2:{ left. exists user. repeat split; try assumption.
      now apply (handle_message_denied cfg w update user). }
  right.
  destruct (message update) as [msg|] eqn:Hmsg.
  2:{ left. exists user. repeat split; try assumption.
      unfold handle_message. rewrite Huser. simpl.
      now rewrite Hallowed, Hmsg. }
  right.
  destruct (text msg) as [[|c body]|] eqn:Htext.
  1:{ left. exists user, msg. repeat split; try assumption; [now right|].
      apply (handle_message_skipped cfg w update user msg); auto. }
  2:{ left. exists user, msg. repeat split; try assumption; [now left|].
      apply (handle_message_skipped cfg w update user msg); auto. }
  right.
  destruct (username user) as [name|] eqn:Hname.
  - right. exists user, msg, name, (c :: body).
    assert (Hr : reaches_rendering cfg update user msg name (c :: body)).
    { repeat split; try assumption. discriminate. }
    split; [exact Hr|].
    rewrite (handle_message_renders cfg w update user msg name (c :: body) Hr).
    unfold rendering_events. now rewrite <- app_assoc.
  - left. exists user, msg, (c :: body).
    repeat split; try assumption; [discriminate|].
    unfold handle_message, format_text. rewrite Huser. simpl.
    rewrite Hallowed, Hmsg. simpl. rewrite Htext. simpl.
    now rewrite Hname.
Qed.

End Runs.

(** ** Observations distribute over the parts of a run *)

Lemma replies_app (a b : list event) :
  replies (a ++ b) = replies a ++ replies b.
Proof.
  induction a as [|e a IH]; simpl; [reflexivity|].
  destruct e; simpl; now rewrite ?IH.
Qed.

Lemma launched_app (a b : list event) :
  launched (a ++ b) = launched a ++ launched b.
Proof.
  induction a as [|e a IH]; simpl; [reflexivity|].
  destruct e; simpl; now rewrite ?IH.
Qed.

Lemma draw_positions_app (a b : list event) :
  draw_positions (a ++ b) = draw_positions a ++ draw_positions b.
Proof.
  induction a as [|e a IH]; simpl; [reflexivity|].
  destruct e; simpl; now rewrite ?IH.
Qed.

Lemma draw_events_only_draw (p : event -> bool) (padding step : Z)
  (lines : list str) :
  (forall xy line, p (DrawText xy line) = false) ->
  forall y, existsb p (draw_events padding step y lines) = false.
Proof.
  intros Hp. induction lines as [|line rest IH]; intros y; simpl.
  - reflexivity.
  - now rewrite Hp, IH.
Qed.

Lemma replies_draw_events (padding step : Z) (lines : list str) :
  forall y, replies (draw_events padding step y lines) = [].
Proof.
  induction lines as [|line rest IH]; intros y; simpl; [reflexivity|].
  apply IH.
Qed.

Lemma launched_draw_events (padding step : Z) (lines : list str) :
  forall y, launched (draw_events padding step y lines) = [].
Proof.
  induction lines as [|line rest IH]; intros y; simpl; [reflexivity|].
  apply IH.
Qed.

Lemma draw_positions_draw_events (padding step : Z) (lines : list str) :
  forall y,
    draw_positions (draw_events padding step y lines)
    = map (fun i => (padding, y + Z.of_nat i * step))
        (seq 0 (List.length lines)).
Proof.
  induction lines as [|line rest IH]; intros y; simpl; [reflexivity|].
  rewrite IH, <- seq_shift, map_map. f_equal.
  - f_equal. lia.
  - apply map_ext. intros i. f_equal. lia.
Qed.

Lemma rendering_events_quiet (p : event -> bool) (cfg : Config) (w : World)
  (msg : Message) (name body : str) :
  (forall lvl record, p (Log lvl record) = false) ->
  (forall size white, p (ImageNew size white) = false) ->
  (forall xy line, p (DrawText xy line) = false) ->
  existsb p (rendering_events cfg w msg name body) = false.
Proof.
  intros Hlog Hnew Hdraw. unfold rendering_events.
  rewrite existsb_app, draw_events_only_draw by exact Hdraw.
  simpl. now rewrite !Hlog, !Hnew.
Qed.

Lemma release_observations (cfg : Config) (w : World) :
  existsb is_save_or_popen (release cfg w) = false /\
  replies (release cfg w) = [] /\
  launched (release cfg w) = [] /\
  existsb is_error_log (release cfg w) = false.
Proof.
  unfold release. destruct (delete_temp_files cfg) as [[|]|]; now repeat split.
Qed.

Ltac run_cases cfg w update :=
  destruct (handle_message_cases cfg w update)
    as [(Huser & E)
       |[(user & Huser & Hallowed & E)
        |[(user & Huser & Hallowed & Hmsg & E)
         |[(user & msg & Huser & Hallowed & Hmsg & Htext & E)
          |[(user & msg & body & Huser & Hallowed & Hmsg & Htext & Hbody
             & Hname & E)
           |(user & msg & name & body & Hr & E)]]]]].

Ltac block_cases cfg w :=
  destruct (print_image_cases cfg w) as (mid & r & Eblock & Hblock);
  destruct Hblock
    as [(e & Hsave & Hmid & Hout)
       |[(Hsave & Hscript & Hmid & Hout)
        |[(script & Hsave & Hscript & Hpopen & Hmid & Hout)
         |[(script & e & Hsave & Hscript & Hpopen & Hexn & Hmid & Hout)
          |(script & e & Hsave & Hscript & Hpopen & Hexn & Hmid & Hout)]]]];
  subst mid r.

(** X6. [handle_message] never sends a reply, whatever the update, the
    configuration and the failures of the save and of the launch: a
    printed message, a skipped one, a denied one and a failed one are
    all silent towards the sender. *)
Theorem handle_message_never_replies
  (cfg : Config) (w : World) (update : Update) :
  replies (fst (handle_message cfg w update)) = [].
Proof.
  run_cases cfg w update; rewrite E; try reflexivity.
  cbn [fst]. rewrite replies_app. unfold rendering_events.
  rewrite replies_app, replies_draw_events.
  block_cases cfg w; rewrite Eblock; cbn [fst];
    change (TempFileOpen (tmp_name w) (delete_flag cfg) :: ?m ++ release cfg w)
      with ((TempFileOpen (tmp_name w) (delete_flag cfg) :: m)
            ++ release cfg w);
    rewrite replies_app;
    destruct (release_observations cfg w) as (_ & -> & _);
    reflexivity.
Qed.

(** X7. The temporary file is a scoped resource in every run of
    [handle_message]: either the run touches no temporary file, saves
    nothing and starts nothing, or it opens the file once, saves and
    launches only while the file is open, and ends by closing the file
    (and removing it when deletion is enabled), also when the save or
    the launch raises. *)
Theorem temp_file_is_scoped (cfg : Config) (w : World) (update : Update) :
  (existsb is_tempfile (fst (handle_message cfg w update)) = false /\
   existsb is_save_or_popen (fst (handle_message cfg w update)) = false) \/
  (exists before mid,
      fst (handle_message cfg w update)
      = before ++
        TempFileOpen (tmp_name w) (delete_flag cfg) :: mid ++ release cfg w /\
      existsb is_tempfile before = false /\
      existsb is_save_or_popen before = false /\
      existsb is_tempfile mid = false).
Proof.
  run_cases cfg w update; rewrite E; try (left; split; reflexivity).
  right. cbn [fst].
  exists (rendering_events cfg w msg name body).
  assert (Hq1 : existsb is_tempfile (rendering_events cfg w msg name body)
                = false) by now apply rendering_events_quiet.
  assert (Hq2 : existsb is_save_or_popen
                  (rendering_events cfg w msg name body)
                = false) by now apply rendering_events_quiet.
  block_cases cfg w; rewrite Eblock; cbn [fst];
    eexists; (split; [reflexivity|]); now repeat split.
Qed.

Lemma In_release (cfg : Config) (w : World) (e : event) :
  In e (release cfg w) ->
  e = TempFileClose (tmp_name w) \/
  (e = TempFileUnlink (tmp_name w) /\ delete_flag cfg = true).
Proof.
  unfold release, delete_flag.
  destruct (delete_temp_files cfg) as [[|]|]; simpl; intuition.
Qed.

Lemma existsb_false_In {A} (p : A -> bool) (l : list A) (x : A) :
  existsb p l = false -> In x l -> p x = false.
Proof.
  intros H Hin. destruct (p x) eqn:Hp; [|reflexivity].
  rewrite <- H. symmetry. apply existsb_exists. now exists x.
Qed.

Lemma existsb_weaken {A} (p q : A -> bool) (l : list A) :
  (forall x, q x = true -> p x = true) ->
  existsb p l = false -> existsb q l = false.
Proof.
  intros Hpq H. destruct (existsb q l) eqn:Hq; [|reflexivity].
  apply existsb_exists in Hq. destruct Hq as (x & Hin & Hx).
  rewrite <- H. symmetry. apply existsb_exists. exists x. auto.
Qed.

Lemma is_unlink_is_tempfile (e : event) :
  is_unlink e = true -> is_tempfile e = true.
Proof. destruct e; simpl; congruence. Qed.

Lemma scoped_retention (cfg : Config) (w : World) (before mid : list event) :
  existsb is_tempfile before = false ->
  existsb is_tempfile mid = false ->
  (delete_temp_files cfg = Some false ->
   existsb is_unlink
     (before ++
      TempFileOpen (tmp_name w) (delete_flag cfg) :: mid ++ release cfg w)
   = false) /\
  (delete_temp_files cfg <> Some false ->
   forall name delete,
     In (TempFileOpen name delete)
       (before ++
        TempFileOpen (tmp_name w) (delete_flag cfg) :: mid ++ release cfg w) ->
     In (TempFileUnlink name)
       (before ++
        TempFileOpen (tmp_name w) (delete_flag cfg) :: mid ++ release cfg w)).
Proof.
  intros Hb Hm. split.
  - intros Hkeep.
    rewrite existsb_app. simpl. rewrite existsb_app.
    rewrite (existsb_weaken is_tempfile is_unlink before
               is_unlink_is_tempfile Hb).
    rewrite (existsb_weaken is_tempfile is_unlink mid
               is_unlink_is_tempfile Hm).
    unfold release. now rewrite Hkeep.
  - intros Hdel name delete Hin.
    assert (name = tmp_name w) as ->.
    { apply in_app_or in Hin. destruct Hin as [Hin|[Hin|Hin]].
      - apply (existsb_false_In _ _ _ Hb) in Hin. discriminate.
      - now injection Hin as -> _.
      - apply in_app_or in Hin. destruct Hin as [Hin|Hin].
        + apply (existsb_false_In _ _ _ Hm) in Hin. discriminate.
        + apply In_release in Hin.
          destruct Hin as [Hin|[Hin _]]; discriminate. }
    apply in_or_app. right. right. apply in_or_app. right.
    unfold release.
    destruct (delete_temp_files cfg) as [[|]|];
      [right; now left | contradiction | right; now left].
Qed.

(** X8. Retention of the temporary file: with [delete_temp_files]
    false no run of [handle_message] removes a file; otherwise (true, or
    not configured) every run that opens the temporary file removes
    it. *)
Theorem temp_file_retention (cfg : Config) (w : World) (update : Update) :
  (delete_temp_files cfg = Some false ->
   existsb is_unlink (fst (handle_message cfg w update)) = false) /\
  (delete_temp_files cfg <> Some false ->
   forall name delete,
     In (TempFileOpen name delete) (fst (handle_message cfg w update)) ->
     In (TempFileUnlink name) (fst (handle_message cfg w update))).
Proof.
  run_cases cfg w update; rewrite E;
    try (split; [reflexivity | intros _ n d Hin; simpl in Hin;
                                intuition discriminate]).
  cbn [fst].
  assert (Hq : existsb is_tempfile (rendering_events cfg w msg name body)
               = false) by now apply rendering_events_quiet.
  block_cases cfg w; rewrite Eblock; cbn [fst];
    now apply scoped_retention.
Qed.

(** ** What the handlers raise *)





(** X11. An update without a sender makes both handlers raise
    [AttributeError] right after their first log line, and an update
    without a message makes them raise it as soon as they need the
    message: [handle_message] when the sender is allowed, [handle_start]
    when it replies (for a sender that is not allowed, after logging the
    denial).  No reply is sent and no pipeline stage runs. *)
Theorem missing_sender_or_message_raises_AttributeError
  (cfg : Config) (w : World) (update : Update) :
  (effective_user update = None ->
   handle_message cfg w update
   = ([Log INFO UserMessage], Raised AttributeError) /\
   handle_start cfg update = ([Log INFO UserStart], Raised AttributeError)) /\
  (forall user,
      effective_user update = Some user ->
      message update = None ->
      handle_start cfg update
      = (Log INFO UserStart ::
         (if contains (allowed_users cfg) (id user)
          then []
          else [Log WARNING Denied]),
         Raised AttributeError) /\
      (contains (allowed_users cfg) (id user) = true ->
       handle_message cfg w update
       = ([Log INFO UserMessage], Raised AttributeError))).
Proof.
  split.
  - intros Huser. unfold handle_message, handle_start.
    rewrite Huser. split; reflexivity.
  - intros user Huser Hmsg. unfold handle_message, handle_start, reply_text.
    rewrite Huser. simpl.
    destruct (contains (allowed_users cfg) (id user)); rewrite Hmsg;
      split; try reflexivity; discriminate.
Qed.

(** ** [handle_start] *)

(** X12. [handle_start] answers every update that has a sender and a
    message with exactly one reply, the greeting when the sender is
    listed and the notice that the bot is private otherwise, and
    returns; whatever the update, it sends at most one reply and runs no
    stage of the printing pipeline. *)
Theorem handle_start_replies_once (cfg : Config) (update : Update) :
  (forall user msg,
      effective_user update = Some user ->
      message update = Some msg ->
      replies (fst (handle_start cfg update))
      = [if contains (allowed_users cfg) (id user)
         then of_string "Welcome!"
         else of_string "Sorry, this bot is private."] /\
      snd (handle_start cfg update) = Returned tt) /\
  (List.length (replies (fst (handle_start cfg update))) <= 1)%nat /\
  existsb is_pipeline (fst (handle_start cfg update)) = false.
Proof.
  unfold handle_start, reply_text.
  destruct (effective_user update) as [user|]; simpl.
  - destruct (contains (allowed_users cfg) (id user)) eqn:Hallowed;
      destruct (message update) as [msg|]; simpl;
      (split;
       [intros u m Hu Hm; injection Hu as <-; rewrite Hallowed;
        try discriminate; now split
       | split; [lia | reflexivity]]).
  - split; [intros u m Hu; discriminate | split; [simpl; lia | reflexivity]].
Qed.

(** ** The dispatch *)

(** X13. Whatever the run of [handle_message], a process is started
    only after the image has been saved to the temporary file, at most
    once, with the tokens of [printer_script] followed by the path of
    the temporary file as its last argument; the handler then
    returns. *)
Theorem launch_only_after_save
  (cfg : Config) (w : World) (update : Update) (cmd : list str) :
  In cmd (launched (fst (handle_message cfg w update))) ->
  (exists script,
      printer_script cfg = Some script /\
      cmd = split script ++ [tmp_name w]) /\
  launched (fst (handle_message cfg w update)) = [cmd] /\
  (exists before after,
      fst (handle_message cfg w update)
      = before ++ ImageSave (tmp_name w) :: after /\
      launched before = [] /\ launched after = [cmd]) /\
  snd (handle_message cfg w update) = Returned tt.
Proof.
  intros Hin.
  run_cases cfg w update; rewrite E in Hin |- *; try contradiction.
  cbn [fst snd] in Hin |- *.
  assert (Hq : launched (rendering_events cfg w msg name body) = []).
  { unfold rendering_events. now rewrite launched_app, launched_draw_events. }
  destruct (release_observations cfg w) as (_ & _ & Hrel & _).
  rewrite launched_app, Hq in Hin. simpl app in Hin.
  block_cases cfg w; rewrite Eblock in Hin |- *; cbn [fst snd] in Hin |- *;
    cbn [launched app] in Hin; rewrite ?Hrel in Hin; try contradiction.
  destruct Hin as [<-|[]].
  split; [now exists script|].
  split.
  { rewrite launched_app, Hq. cbn [launched app]. now rewrite Hrel. }
  split; [|reflexivity].
  exists (rendering_events cfg w msg name body
          ++ [TempFileOpen (tmp_name w) (delete_flag cfg)]).
  eexists. split.
  - rewrite <- app_assoc. reflexivity.
  - split.
    + rewrite launched_app, Hq. reflexivity.
    + cbn [launched app]. now rewrite Hrel.
Qed.

Lemma launch_only_after_save_witness :
  launched
    (fst (handle_message sample_config sample_world
            (sample_update 123 (Some (of_string "Hello world")))))
  = [[of_string "lp"; of_string "-d"; of_string "thermal";
      of_string "/tmp/tmpab12cd.png"]].
Proof.
  refine (proj1 (proj2 (launch_only_after_save sample_config sample_world
                          (sample_update 123 (Some (of_string "Hello world")))
                          [of_string "lp"; of_string "-d";
                           of_string "thermal";
                           of_string "/tmp/tmpab12cd.png"] _))).
  vm_compute. left. reflexivity.
Defined.

(** X14. The successful run: for a message that reaches rendering,
    when the save succeeds and the command starts, the run is the
    rendering, then the opening of the temporary file, the save, the
    start of [printer_script] with the file path appended, and at once,
    without waiting for the command, the closing of the file and its
    removal unless it is retained; the handler returns. *)
Theorem successful_run
  (cfg : Config) (w : World) (update : Update) (user : User) (msg : Message)
  (name body script : str) :
  reaches_rendering cfg update user msg name body ->
  save_raises w = None ->
  printer_script cfg = Some script ->
  popen_raises w (split script ++ [tmp_name w]) = None ->
  handle_message cfg w update
  = (rendering_events cfg w msg name body ++
     [TempFileOpen (tmp_name w) (delete_flag cfg);
      ImageSave (tmp_name w);
      Log INFO (ImageSaved (tmp_name w));
      Log INFO (CallingExternalProgram (split script ++ [tmp_name w]));
      Popen (split script ++ [tmp_name w]);
      TempFileClose (tmp_name w)] ++
     (if delete_flag cfg then [TempFileUnlink (tmp_name w)] else []),
     Returned tt).
Proof.
  intros Hr Hsave Hscript Hpopen.
  rewrite (handle_message_renders cfg w update user msg name body Hr).
  rewrite (print_image_launches cfg w script Hsave Hscript Hpopen).
  cbn [fst snd]. unfold rendering_events, release, delete_flag.
  rewrite <- !app_assoc. reflexivity.
Qed.

Lemma successful_run_witness :
  handle_message sample_config sample_world
    (sample_update 123 (Some (of_string "Hello world")))
  = (rendering_events sample_config sample_world
       (sample_message (Some (of_string "Hello world")))
       (of_string "alice") (of_string "Hello world") ++
     [TempFileOpen (tmp_name sample_world) (delete_flag sample_config);
      ImageSave (tmp_name sample_world);
      Log INFO (ImageSaved (tmp_name sample_world));
      Log INFO
        (CallingExternalProgram
           (split (of_string "lp -d thermal") ++ [tmp_name sample_world]));
      Popen (split (of_string "lp -d thermal") ++ [tmp_name sample_world]);
      TempFileClose (tmp_name sample_world)] ++
     (if delete_flag sample_config
      then [TempFileUnlink (tmp_name sample_world)]
      else []),
     Returned tt).
Proof.
  refine (successful_run sample_config sample_world
            (sample_update 123 (Some (of_string "Hello world")))
            (sample_user 123)
            (sample_message (Some (of_string "Hello world")))
            (of_string "alice") (of_string "Hello world")
            (of_string "lp -d thermal") _ _ _ _);
    try reflexivity.
  unfold reaches_rendering. repeat split; try reflexivity. discriminate.
Defined.

(** X15. A missing [printer_script] option does not stop the handler:
    the image is still saved, the [KeyError] is caught and logged as an
    error, nothing is launched, the temporary file is released and the
    handler returns. *)
Theorem missing_printer_script_is_logged
  (cfg : Config) (w : World) (update : Update) (user : User) (msg : Message)
  (name body : str) :
  reaches_rendering cfg update user msg name body ->
  save_raises w = None ->
  printer_script cfg = None ->
  handle_message cfg w update
  = (rendering_events cfg w msg name body ++
     [TempFileOpen (tmp_name w) (delete_flag cfg);
      ImageSave (tmp_name w);
      Log INFO (ImageSaved (tmp_name w));
      Log ERROR (FailedToCallExternalProgram KeyError)] ++
     release cfg w,
     Returned tt) /\
  launched (fst (handle_message cfg w update)) = [].
Proof.
  intros Hr Hs Hp.
  assert (E : handle_message cfg w update
              = (rendering_events cfg w msg name body ++
                 [TempFileOpen (tmp_name w) (delete_flag cfg);
                  ImageSave (tmp_name w);
                  Log INFO (ImageSaved (tmp_name w));
                  Log ERROR (FailedToCallExternalProgram KeyError)] ++
                 release cfg w,
                 Returned tt)).
  { rewrite (handle_message_renders cfg w update user msg name body Hr).
    block_cases cfg w; try congruence.
    rewrite Eblock. cbn [fst snd]. unfold rendering_events.
    now rewrite <- app_assoc. }
  split; [exact E|]. rewrite E. cbn [fst].
  destruct (release_observations cfg w) as (_ & _ & Hrel & _).
  unfold rendering_events.
  rewrite !launched_app, launched_draw_events, Hrel. reflexivity.
Qed.

Lemma missing_printer_script_is_logged_witness :
  launched
    (fst (handle_message no_script_config sample_world
            (sample_update 123 (Some (of_string "Hello world")))))
  = [].
Proof.
  refine (proj2 (missing_printer_script_is_logged no_script_config
                   sample_world
                   (sample_update 123 (Some (of_string "Hello world")))
                   (sample_user 123)
                   (sample_message (Some (of_string "Hello world")))
                   (of_string "alice") (of_string "Hello world") _ _ _));
    try reflexivity.
  unfold reaches_rendering. repeat split; try reflexivity. discriminate.
Defined.

(** X16. [except Exception] does not catch everything: when the launch
    raises an exception that is not an [Exception] (a
    [KeyboardInterrupt]), nothing is logged as an error and the
    exception leaves [handle_message], after the temporary file has
    been released. *)
Theorem launch_interrupt_propagates
  (cfg : Config) (w : World) (update : Update) (user : User) (msg : Message)
  (name body scr : str) (exc : exn) :
  reaches_rendering cfg update user msg name body ->
  save_raises w = None ->
  printer_script cfg = Some scr ->
  popen_raises w (split scr ++ [tmp_name w]) = Some exc ->
  is_Exception exc = false ->
  handle_message cfg w update
  = (rendering_events cfg w msg name body ++
     [TempFileOpen (tmp_name w) (delete_flag cfg);
      ImageSave (tmp_name w);
      Log INFO (ImageSaved (tmp_name w));
      Log INFO (CallingExternalProgram (split scr ++ [tmp_name w]))] ++
     release cfg w,
     Raised exc) /\
  existsb is_error_log (fst (handle_message cfg w update)) = false.
Proof.
  intros Hr Hs Hp Hpo Hex.
  assert (E : handle_message cfg w update
              = (rendering_events cfg w msg name body ++
                 [TempFileOpen (tmp_name w) (delete_flag cfg);
                  ImageSave (tmp_name w);
                  Log INFO (ImageSaved (tmp_name w));
                  Log INFO
                    (CallingExternalProgram (split scr ++ [tmp_name w]))]
                 ++ release cfg w,
                 Raised exc)).
  { rewrite (handle_message_renders cfg w update user msg name body Hr).
    block_cases cfg w; try congruence.
    assert (script = scr) as -> by congruence.
    assert (e = exc) as -> by congruence.
    rewrite Eblock. cbn [fst snd]. unfold rendering_events.
    now rewrite <- app_assoc. }
  split; [exact E|]. rewrite E. cbn [fst].
  destruct (release_observations cfg w) as (_ & _ & _ & Hrel).
  rewrite !existsb_app, Hrel. unfold rendering_events.
  rewrite existsb_app, no_error_log_draw_events. reflexivity.
Qed.

Lemma launch_interrupt_propagates_witness :
  existsb is_error_log
    (fst (handle_message sample_config interrupted_launch_world
            (sample_update 123 (Some (of_string "Hello world")))))
  = false.
Proof.
  refine (proj2 (launch_interrupt_propagates sample_config
                   interrupted_launch_world
                   (sample_update 123 (Some (of_string "Hello world")))
                   (sample_user 123)
                   (sample_message (Some (of_string "Hello world")))
                   (of_string "alice") (of_string "Hello world")
                   (of_string "lp -d thermal") KeyboardInterrupt
                   _ _ _ _ _));
    try reflexivity.
  unfold reaches_rendering. repeat split; try reflexivity. discriminate.
Defined.

(** ** Where the lines are drawn *)

Lemma print_image_draws_nothing (cfg : Config) (w : World) :
  draw_positions (fst (print_image cfg w)) = [].
Proof.
  assert (Hrel : draw_positions (release cfg w) = []).
  { unfold release. now destruct (delete_temp_files cfg) as [[|]|]. }
  block_cases cfg w; rewrite Eblock; cbn [fst draw_positions app];
    exact Hrel.
Qed.

(** X17. The lines of a printed message are drawn left-aligned at
    x = 8, the i-th (from 0) at y = 8 + i * (line_height + 8); when
    [line_height + 8] is not negative every line starts below the top
    padding and its slot ends above the bottom padding of the canvas. *)
Theorem lines_are_drawn_inside_canvas
  (cfg : Config) (w : World) (update : Update) (user : User) (msg : Message)
  (name body : str) :
  reaches_rendering cfg update user msg name body ->
  draw_positions (fst (handle_message cfg w update))
  = map (fun i => (8, 8 + Z.of_nat i * (line_height_of (font w) + 8)))
      (seq 0 (List.length (drawn (fst (handle_message cfg w update))))) /\
  (0 <= line_height_of (font w) + 8 ->
   forall x y width height,
     In (x, y) (draw_positions (fst (handle_message cfg w update))) ->
     In (width, height) (canvases (fst (handle_message cfg w update))) ->
     x = 8 /\ 8 <= y /\
     y + (line_height_of (font w) + 8) <= height - 8).
Proof.
  intros Hr.
  destruct (rendered_observations cfg w update user msg name body Hr)
    as [Hc Hd].
  assert (Hp : draw_positions (fst (handle_message cfg w update))
               = map (fun i =>
                        (8, 8 + Z.of_nat i * (line_height_of (font w) + 8)))
                   (seq 0 (List.length (lines_of cfg w msg name body)))).
  { rewrite (handle_message_renders cfg w update user msg name body Hr).
    cbn [fst]. rewrite draw_positions_app. cbn [draw_positions app].
    rewrite draw_positions_app, print_image_draws_nothing, app_nil_r.
    apply draw_positions_draw_events. }
  rewrite Hd. split; [exact Hp|].
  intros Hstep x y width height Hxy Hsize.
  rewrite Hp in Hxy. rewrite Hc in Hsize.
  destruct Hsize as [Hsize|[]]. injection Hsize as <- <-.
  apply in_map_iff in Hxy. destruct Hxy as (i & Hi & Hin).
  pose proof (f_equal fst Hi) as Hx. pose proof (f_equal snd Hi) as Hy.
  cbn [fst snd] in Hx, Hy. subst x y. clear Hi.
  apply in_seq in Hin.
  split; [reflexivity|].
  set (step := line_height_of (font w) + 8) in *.
  set (n := List.length (lines_of cfg w msg name body)) in *.
  assert (H0 : 0 <= Z.of_nat i * step)
    by (apply Z.mul_nonneg_nonneg; lia).
  assert (H1 : (Z.of_nat i + 1) * step <= Z.of_nat n * step)
    by (apply Z.mul_le_mono_nonneg_r; lia).
  split; lia.
Qed.

Lemma lines_are_drawn_inside_canvas_witness :
  draw_positions
    (fst (handle_message sample_config sample_world
            (sample_update 123 (Some (of_string "Hello world")))))
  = map (fun i =>
           (8, 8 + Z.of_nat i * (line_height_of (font sample_world) + 8)))
      (seq 0
         (List.length
            (drawn
               (fst (handle_message sample_config sample_world
                       (sample_update 123
                          (Some (of_string "Hello world")))))))).
Proof.
  refine (proj1 (lines_are_drawn_inside_canvas sample_config sample_world
                   (sample_update 123 (Some (of_string "Hello world")))
                   (sample_user 123)
                   (sample_message (Some (of_string "Hello world")))
                   (of_string "alice") (of_string "Hello world") _)).
  unfold reaches_rendering. repeat split; try reflexivity. discriminate.
Defined.

(** ** The text block and its source lines *)

Lemma splitlines_from_not_nil (s : str) :
  forall cur, cur <> [] \/ s <> [] -> splitlines_from cur s <> [].
Proof.
  induction s as [|c rest IH]; intros cur H; simpl.
  - destruct cur; [destruct H; contradiction | discriminate].
  - destruct (islinebreak c).
    + destruct rest as [|d rest']; [discriminate|].
      destruct ((c =? CR)%N && (d =? LF)%N); discriminate.
    + apply IH. left. now destruct cur.
Qed.

Lemma splitlines_from_line (s t : str) :
  no_linebreak s ->
  forall cur, splitlines_from cur (s ++ LF :: t) = (cur ++ s) :: splitlines t.
Proof.
  induction 1 as [|c s Hc _ IH]; intros cur.
  - rewrite app_nil_r. simpl. now destruct t.
  - simpl. rewrite Hc, IH, <- app_assoc. reflexivity.
Qed.

(** A line feed that follows any text closes at least one line, and the
    text after it is split on its own. *)
Lemma splitlines_from_sep (n : nat) :
  forall a, (List.length a <= n)%nat ->
  forall cur t,
    exists pre,
      pre <> [] /\ splitlines_from cur (a ++ LF :: t) = pre ++ splitlines t.
Proof.
  induction n as [|n IH]; intros a Ha cur t.
  - destruct a; [|simpl in Ha; lia].
    exists [cur]. split; [discriminate|]. simpl. now destruct t.
  - destruct a as [|c a'].
    + exists [cur]. split; [discriminate|]. simpl. now destruct t.
    + simpl in Ha. simpl.
      destruct (islinebreak c).
      * destruct a' as [|d a'']; simpl.
        -- destruct (c =? CR)%N; simpl.
           ++ exists [cur]. split; [discriminate | reflexivity].
           ++ exists [cur; []]. split; [discriminate|]. simpl.
              now destruct t.
        -- simpl in Ha.
           destruct ((c =? CR)%N && (d =? LF)%N).
           ++ destruct (IH a'' ltac:(lia) [] t) as (pre & Hpre & E).
              exists (cur :: pre). split; [discriminate|].
              simpl. now rewrite E.
           ++ destruct (IH (d :: a'') ltac:(simpl; lia) [] t)
                as (pre & Hpre & E).
              exists (cur :: pre). split; [discriminate|].
              simpl. simpl in E. now rewrite E.
      * destruct (IH a' ltac:(lia) (cur ++ [c]) t) as (pre & Hpre & E).
        exists pre. split; [exact Hpre | exact E].
Qed.

Lemma wrap_text_length_ge (font : Font) (width padding : Z) (text : str) :
  (List.length (splitlines text)
   <= List.length (wrap_text font width padding text))%nat.
Proof.
  rewrite wrap_text_flat_map.
  induction (splitlines text) as [|line rest IH]; simpl; [lia|].
  rewrite length_app.
  pose proof (loop_length font width padding (split line) []). lia.
Qed.

(** X18. A printed message never has fewer than four lines: the text
    block always splits into at least a timestamp line, a name line, a
    blank line and one line of body, so at least four lines are drawn
    and, when [line_height + 8] is not negative, the canvas is at least
    [4 * (line_height + 8) + 16] pixels high. *)
Theorem printed_message_has_four_lines
  (cfg : Config) (w : World) (update : Update) (user : User) (msg : Message)
  (name body : str) :
  reaches_rendering cfg update user msg name body ->
  (4 <= List.length (drawn (fst (handle_message cfg w update))))%nat /\
  (0 <= line_height_of (font w) + 8 ->
   forall width height,
     In (width, height) (canvases (fst (handle_message cfg w update))) ->
     4 * (line_height_of (font w) + 8) + 16 <= height).
Proof.
  intros Hr.
  destruct (rendered_observations cfg w update user msg name body Hr)
    as [Hc Hd].
  assert (Hfour : (4 <= List.length (lines_of cfg w msg name body))%nat).
  { unfold lines_of.
    eapply Nat.le_trans; [|apply wrap_text_length_ge].
    unfold text_of, splitlines.
    destruct Hr as (_ & _ & _ & _ & Hbody & _).
    match goal with
    | |- context [splitlines_from [] (?iso ++ [LF] ++ _)] =>
        destruct (splitlines_from_sep (List.length iso) iso (le_n _) []
                    (name ++ [LF; LF] ++ body)) as (p1 & Hp1 & E1)
    end.
    simpl app in E1 |- *. rewrite E1. unfold splitlines.
    destruct (splitlines_from_sep (List.length name) name (le_n _) []
                (LF :: body)) as (p2 & Hp2 & E2).
    rewrite E2. unfold splitlines.
    assert (E3 : splitlines_from [] (LF :: body)
                 = [] :: splitlines_from [] body) by now destruct body.
    rewrite E3. rewrite !length_app. simpl.
    pose proof (splitlines_from_not_nil body [] (or_intror Hbody)) as Hb.
    destruct p1; [contradiction|]. destruct p2; [contradiction|].
    destruct (splitlines_from [] body); [contradiction|]. simpl. lia. }
  rewrite Hd. split; [exact Hfour|].
  intros Hstep width height Hsize. rewrite Hc in Hsize.
  destruct Hsize as [Hsize|[]]. injection Hsize as <- <-. nia.
Qed.

Lemma printed_message_has_four_lines_witness :
  (4 <= List.length
          (drawn
             (fst (handle_message sample_config sample_world
                     (sample_update 123 (Some (of_string "Hello world")))))))%nat.
Proof.
  refine (proj1 (printed_message_has_four_lines sample_config sample_world
                   (sample_update 123 (Some (of_string "Hello world")))
                   (sample_user 123)
                   (sample_message (Some (of_string "Hello world")))
                   (of_string "alice") (of_string "Hello world") _)).
  unfold reaches_rendering. repeat split; try reflexivity. discriminate.
Defined.

(** X19. When neither the timestamp nor the username contains a line
    break, the lines drawn for a message are the wrapped timestamp, the
    wrapped username, one empty line and the wrapped body, in this
    order: the header never runs into the body and the line breaks of
    the body are kept. *)
Theorem message_layout
  (cfg : Config) (w : World) (update : Update) (user : User) (msg : Message)
  (name body : str) :
  reaches_rendering cfg update user msg name body ->
  no_linebreak
    (isoformat w
       (match timezone cfg with Some z => z | None => of_string "UTC" end)
       (date msg)) ->
  no_linebreak name ->
  drawn (fst (handle_message cfg w update))
  = wrap_line (font w) 384 8 []
      (isoformat w
         (match timezone cfg with Some z => z | None => of_string "UTC" end)
         (date msg))
    ++ wrap_line (font w) 384 8 [] name
    ++ [] :: wrap_text (font w) 384 8 body.
Proof.
  intros Hr Hiso Hname.
  destruct (rendered_observations cfg w update user msg name body Hr)
    as [_ Hd].
  rewrite Hd. unfold lines_of, text_of.
  rewrite !wrap_text_flat_map. unfold splitlines at 1.
  simpl app.
  rewrite (splitlines_from_line _ (name ++ LF :: LF :: body) Hiso).
  unfold splitlines at 1.
  rewrite (splitlines_from_line _ (LF :: body) Hname).
  assert (E3 : splitlines (LF :: body) = [] :: splitlines body)
    by (unfold splitlines; now destruct body).
  rewrite E3. simpl flat_map. rewrite !wrap_line_loop. reflexivity.
Qed.

Lemma message_layout_witness :
  drawn
    (fst (handle_message sample_config sample_world
            (sample_update 123 (Some (of_string "Hello world")))))
  = wrap_line (font sample_world) 384 8 []
      (isoformat sample_world
         (match timezone sample_config with
          | Some z => z
          | None => of_string "UTC"
          end)
         (date (sample_message (Some (of_string "Hello world")))))
    ++ wrap_line (font sample_world) 384 8 [] (of_string "alice")
    ++ [] :: wrap_text (font sample_world) 384 8 (of_string "Hello world").
Proof.
  refine (message_layout sample_config sample_world
            (sample_update 123 (Some (of_string "Hello world")))
            (sample_user 123)
            (sample_message (Some (of_string "Hello world")))
            (of_string "alice") (of_string "Hello world") _ _ _).
  - unfold reaches_rendering. repeat split; try reflexivity. discriminate.
  - unfold no_linebreak. simpl. repeat constructor.
  - unfold no_linebreak. simpl. repeat constructor.
Defined.

(** ** Loading the allowed users *)

Lemma int_each_Forall2 (int : str -> option Z) (tokens : list str) :
  forall ids,
    int_each int tokens = Some ids <->
    Forall2 (fun token n => int token = Some n) tokens ids.
Proof.
  induction tokens as [|token rest IH]; intros ids; simpl.
  - split.
    + intros E. injection E as <-. constructor.
    + intros H. now inversion H.
  - destruct (int token) as [n|] eqn:Hint.
    + destruct (int_each int rest) as [ns|] eqn:Hrest.
      * split.
        -- intros E. injection E as <-. constructor; [exact Hint|].
           now apply IH.
        -- intros H. inversion H as [|? m ? ms Hm Hms]; subst.
           apply IH in Hms. congruence.
      * split; [discriminate|].
        intros H. inversion H as [|? m ? ms Hm Hms]; subst.
        apply IH in Hms. discriminate.
    + split; [discriminate|].
      intros H. inversion H; subst. congruence.
Qed.

Lemma int_each_None (int : str -> option Z) (tokens : list str) :
  int_each int tokens = None <->
  exists token, In token tokens /\ int token = None.
Proof.
  induction tokens as [|token rest IH]; simpl.
  - split; [discriminate | intros (t & [] & _)].
  - destruct (int token) as [n|] eqn:Hint.
    + destruct (int_each int rest) as [ns|] eqn:Hrest.
      * split; [discriminate|].
        intros (t & [<-|Hin] & Ht); [congruence|].
        assert (H : @None (list Z) = None) by reflexivity.
        destruct IH as [_ IH]. discriminate IH. now exists t.
      * split; [|reflexivity]. intros _.
        destruct IH as [IH _]. destruct (IH eq_refl) as (t & Hin & Ht).
        exists t. split; [now right | exact Ht].
    + split; [|reflexivity]. intros _. exists token.
      split; [now left | exact Hint].
Qed.

(** X20. Loading [allowed_users] is all or nothing: it fails (the
    [ValueError] of [int] ends the start-up) exactly when some
    whitespace-separated token of the option is rejected by [int]; one
    malformed id is not skipped, it prevents the bot from starting. *)
Theorem load_allowed_users_fails_iff
  (int : str -> option Z) (option_value : option str) :
  load_allowed_users int option_value = None <->
  exists value token,
    option_value = Some value /\ In token (split value) /\ int token = None.
Proof.
  unfold load_allowed_users. rewrite int_each_None.
  destruct option_value as [value|].
  - split.
    + intros (token & Hin & Ht). now exists value, token.
    + intros (v & token & Hv & Hin & Ht). injection Hv as <-.
      now exists token.
  - split.
    + intros (token & [] & _).
    + intros (v & token & Hv & _). discriminate.
Qed.

(** X21. When loading succeeds, the list holds one id per token of the
    option, in the order of the tokens (duplicates kept), and a sender
    passes the access test of the handlers exactly when some token of
    the option is read by [int] as its id. *)
Theorem loaded_users_authorize_their_tokens
  (int : str -> option Z) (value : str) (ids : list Z) (sender : Z) :
  load_allowed_users int (Some value) = Some ids ->
  Forall2 (fun token n => int token = Some n) (split value) ids /\
  (contains ids sender = true <->
   exists token, In token (split value) /\ int token = Some sender).
Proof.
  unfold load_allowed_users. intros Hload.
  apply int_each_Forall2 in Hload. split; [exact Hload|].
  rewrite contains_In.
  induction Hload as [|token n tokens ns Hint _ IH]; simpl.
  - split; [contradiction | intros (t & [] & _)].
  - split.
    + intros [<-|Hin].
      * exists token. split; [now left | exact Hint].
      * destruct (proj1 IH Hin) as (t & Ht & Hs).
        exists t. split; [now right | exact Hs].
    + intros (t & [<-|Ht] & Hs).
      * left. congruence.
      * right. apply IH. now exists t.
Qed.

Lemma loaded_users_authorize_their_tokens_witness :
  Forall2 (fun token n => sample_int token = Some n)
    (split (of_string " 123  456 ")) [123; 456].
Proof.
  refine (proj1 (loaded_users_authorize_their_tokens sample_int
                   (of_string " 123  456 ") [123; 456] 456 _)).
  reflexivity.
Defined.

(** ** The access gate, seen from the pipeline *)

(** X22. Nothing is rendered, stored or launched for anyone else: if a
    run of [handle_message] contains any event of the rendering or
    dispatch stages, then the update has a sender whose id is in the
    allowed list and a message with a non-empty text. *)
Theorem pipeline_requires_allowed_sender_and_text
  (cfg : Config) (w : World) (update : Update) :
  existsb is_pipeline (fst (handle_message cfg w update)) = true ->
  exists user msg body,
    effective_user update = Some user /\
    In (id user) (allowed_users cfg) /\
    message update = Some msg /\
    text msg = Some body /\
    body <> [].
Proof.
  intros Hpipe.
  run_cases cfg w update; rewrite E in Hpipe; cbn [fst] in Hpipe;
    try discriminate.
  - exists user, msg, body. repeat split; try assumption.
    now apply contains_In.
  - destruct Hr as (Hu & Ha & Hm & Ht & Hb & _).
    exists user, msg, body. repeat split; try assumption.
    now apply contains_In.
Qed.

Lemma pipeline_requires_allowed_sender_and_text_witness :
  exists user msg body,
    effective_user (sample_update 123 (Some (of_string "Hello world")))
    = Some user /\
    In (id user) (allowed_users sample_config) /\
    message (sample_update 123 (Some (of_string "Hello world"))) = Some msg /\
    text msg = Some body /\
    body <> [].
Proof.
  refine (pipeline_requires_allowed_sender_and_text sample_config sample_world
            (sample_update 123 (Some (of_string "Hello world"))) _).
  vm_compute. reflexivity.
Defined.
